(** * OneWire-UART: the 1-Wire master of [ow/ow.c] over a UART transport

    A shallow embedding of [src/ow/ow.c] (OneWire-UART v2.0.0).  Octets and
    the other [uint8_t] values are integers of [Z]; the low-level driver is
    a record of functions over an abstract driver state; every call into the
    driver is recorded in a trace so that statements about what the transport
    observed can be made.  The build modelled is the one without an operating
    system ([OW_CFG_OS == 0]), where [ow_protect] and [ow_unprotect] do
    nothing and the thread-safe entry points coincide with their [_raw]
    siblings. *)

From stdpp Require Import base numbers list.
From Stdlib Require Import ZArith Lia.

Local Open Scope Z_scope.

(** ** Octets *)

(** Truncation of a C integer expression stored into a [uint8_t]. *)
Definition u8 (x : Z) : Z := Z.land x 0xFF.

(** A C scalar used as a condition. *)
Definition truthy (x : Z) : bool := negb (x =? 0).

(** Modelled from the spec: the result enumeration [owr_t] of [ow/ow.h],
    which the spec gives as the closed set OK, generic error, presence
    failure, transport failure, baudrate failure and no-device. *)
Inductive owr_t : Type :=
| owOK
| owERR
| owERRPRESENCE
| owERRTXRX
| owERRBAUD
| owERRNODEV.

Definition owr_eqb (a b : owr_t) : bool :=
  match a, b with
  | owOK, owOK | owERR, owERR | owERRPRESENCE, owERRPRESENCE
  | owERRTXRX, owERRTXRX | owERRBAUD, owERRBAUD | owERRNODEV, owERRNODEV => true
  | _, _ => false
  end.

(** Modelled from the spec: the ROM commands of [ow/ow.h]. *)
Definition OW_CMD_SEARCHROM : Z := 0xF0.

(** Internal macros of [ow.c]. *)
Definition OW_FIRST_DEV : Z := 0xFF.
Definition OW_LAST_DEV : Z := 0x00.
Definition OW_RESET_BYTE : Z := 0xF0.

(** [ow_rom_t]: the eight octets [rom[8]]. *)
Abbreviation ow_rom_t := (list Z).

(** The fields of [ow_t] that the library itself reads and writes.  The
    driver table [ll_drv] and its argument [arg] live in the transport state
    below. *)
Record ow_t : Type := mk_ow {
  rom : ow_rom_t;
  disrepancy : Z
}.

(** [SET_NOT_NULL(p, v)]: an out-pointer is [None] when it is [NULL] and
    [Some v] when it points at a cell holding [v]. *)
Definition SET_NOT_NULL (p : option Z) (v : Z) : option Z :=
  match p with
  | Some _ => Some v
  | None => None
  end.

(** ** The transport *)

(** [ow_ll_drv_t]: the driver table, with the four entries that [ow.c]
    calls through [ow->ll_drv]. [D] is the state of the UART and of
    whatever is wired to it; a call returns its success flag and the next
    state.  [ll_tx_rx] is handed the transmit buffer and also returns the
    receive buffer as the call leaves it, which has the length of the
    exchange. *)
Record ow_ll_drv_t (D : Type) : Type := mk_drv {
  ll_init : D -> bool * D;
  ll_deinit : D -> bool * D;
  ll_set_baudrate : Z -> D -> bool * D;
  ll_tx_rx : list Z -> D -> bool * list Z * D;
  ll_tx_rx_length : forall tx d, length (snd (fst (ll_tx_rx tx d))) = length tx
}.

Arguments ll_init {D}.
Arguments ll_deinit {D}.
Arguments ll_set_baudrate {D}.
Arguments ll_tx_rx {D}.
Arguments ll_tx_rx_length {D}.

(** What the transport observes. *)
Inductive ll_call : Type :=
| CallSetBaudrate (baud : Z)
| CallTxRx (tx : list Z).

Record world (D : Type) : Type := mk_world {
  ll_state : D;
  ll_trace : list ll_call
}.

Arguments mk_world {D}.
Arguments ll_state {D}.
Arguments ll_trace {D}.

(** Computations that talk to the transport. *)
Definition M (D A : Type) : Type := world D -> A * world D.

Definition ret {D A : Type} (a : A) : M D A := fun w => (a, w).

Definition bind {D A B : Type} (c : M D A) (k : A -> M D B) : M D B :=
  fun w => let (a, w') := c w in k a w'.

Notation "'let*' x ':=' c 'in' k" := (bind c (fun x => k))
  (at level 10, x pattern, c at level 100, k at level 200).

Section Engine.

Context {D : Type} (drv : ow_ll_drv_t D).

(** [ow->ll_drv->set_baudrate(baud, ow->arg)] *)
Definition call_set_baudrate (baud : Z) : M D bool :=
  fun w =>
    let (ok, d) := ll_set_baudrate drv baud (ll_state w) in
    (ok, mk_world d (ll_trace w ++ [CallSetBaudrate baud])).

(** [ow->ll_drv->tx_rx(tx, rx, len, ow->arg)] *)
Definition call_tx_rx (tx : list Z) : M D (bool * list Z) :=
  fun w =>
    let '(ok, rx, d) := ll_tx_rx drv tx (ll_state w) in
    ((ok, rx), mk_world d (ll_trace w ++ [CallTxRx tx])).

(** ** Bit and byte engine *)

Definition send_bit (btw : Z) (btr : option Z) : M D (owr_t * option Z) :=
  let btr := SET_NOT_NULL btr 0 in
  let btw := if btw >? 0 then 0xFF else 0x00 in
  let* (ok, rx) := call_tx_rx [btw] in
  if negb ok then ret (owERRTXRX, btr)
  else
    let b := rx !!! 0%nat in
    let b := if b =? 0xFF then 1 else 0 in
    ret (owOK, SET_NOT_NULL btr b).

Definition ow_reset_raw : M D owr_t :=
  let b := OW_RESET_BYTE in
  let* ok := call_set_baudrate 9600 in
  if negb ok then ret owERRBAUD
  else
    let* (ok, rx) := call_tx_rx [b] in
    if negb ok then ret owERRTXRX
    else
      let b := rx !!! 0%nat in
      let* ok := call_set_baudrate 115200 in
      if negb ok then ret owERRBAUD
      else if (b =? 0) || (b =? OW_RESET_BYTE) then ret owERRPRESENCE
      else ret owOK.

(** [ow_protect] and [ow_unprotect] without an operating system. *)
Definition ow_protect (protect : Z) : M D owr_t := ret owOK.
Definition ow_unprotect (protect : Z) : M D owr_t := ret owOK.

Definition ow_reset : M D owr_t :=
  let* _ := ow_protect 1 in
  let* res := ow_reset_raw in
  let* _ := ow_unprotect 1 in
  ret res.

(** The first loop of [ow_write_byte_ex_raw]: one octet per bit. *)
Definition tr_prepare (btw : Z) : list Z :=
  map (fun i : nat =>
         if truthy (Z.land btw (Z.shiftl 1 (Z.of_nat i))) then 0xFF else 0x00)
      (seq 0 8).

(** Its second loop: the byte read back from the eight received octets. *)
Definition tr_collect (tr : list Z) : Z :=
  fold_left
    (fun (r : Z) (i : nat) =>
       if (tr !!! i) =? 0xFF then u8 (Z.lor r (Z.shiftl 0x01 (Z.of_nat i))) else r)
    (seq 0 8) 0.

Definition ow_write_byte_ex_raw (btw : Z) (br : option Z) : M D (owr_t * option Z) :=
  let br := SET_NOT_NULL br 0 in
  let tr := tr_prepare btw in
  let* (ok, tr) := call_tx_rx tr in
  if negb ok then ret (owERRTXRX, br)
  else
    match br with
    | Some _ => ret (owOK, Some (tr_collect tr))
    | None => ret (owOK, None)
    end.

Definition ow_read_byte_ex_raw (br : option Z) : M D (owr_t * option Z) :=
  ow_write_byte_ex_raw 0xFF br.

Definition ow_read_bit_ex_raw (br : option Z) : M D (owr_t * option Z) :=
  send_bit 1 br.

End Engine.

(** ** ROM search *)

(** The variables of the search loop of [ow_search_with_command_raw].
    [id] points into [ow->rom.rom]: the buffer is kept here together with
    the offset of [id] in it, and a store through [id] is a store into the
    session's buffer. *)
Record search_st : Type := mk_st {
  st_rom : ow_rom_t;
  st_id : nat;
  id_bit_number : Z;
  next_disrepancy : Z
}.

(** How one turn of the loop ends: it goes on, jumps to [out], or returns
    [owERRTXRX] at once. *)
Inductive search_flow : Type :=
| Next (st : search_st)
| GotoOut (st : search_st)
| ReturnTxRx (st : search_st).

(** The condition under which a discrepancy is resolved towards 1:
    the current position is below [ow->disrepancy], or the octet under [id]
    (here [cur]) has its bit 0 set and [ow->disrepancy] is not the current
    position. *)
Definition force_one (id_bit_number disrepancy cur : Z) : bool :=
  (id_bit_number <? disrepancy)
  || (truthy (Z.land cur 0x01) && negb (disrepancy =? id_bit_number)).

(** The bit sent back and the updated [next_disrepancy] for the pair read. *)
Definition choose_bit (id_bit_number disrepancy cur b b_cpl nd : Z) : Z * Z :=
  if negb (truthy b) && negb (truthy b_cpl) then
    if force_one id_bit_number disrepancy cur then (1, id_bit_number) else (b, nd)
  else (b, nd).

Definition ow_search_reset_raw (ow : ow_t) : owr_t * ow_t :=
  (owOK, mk_ow (rom ow) OW_FIRST_DEV).

Definition ow_search_reset (ow : ow_t) : owr_t * ow_t :=
  ow_search_reset_raw ow.

Section Search.

Context {D : Type} (drv : ow_ll_drv_t D).

(** The body of the inner loop, for one ROM bit. *)
Definition search_bit (disrepancy : Z) (st : search_st) : M D search_flow :=
  let* (r, b) := send_bit drv 1 (Some 0) in
  if negb (owr_eqb r owOK) then ret (ReturnTxRx st)
  else
    let* (r, b_cpl) := send_bit drv 1 (Some 0) in
    if negb (owr_eqb r owOK) then ret (ReturnTxRx st)
    else
      let b := default 0 b in
      let b_cpl := default 0 b_cpl in
      if truthy b && truthy b_cpl then ret (GotoOut st)
      else
        let cur := st_rom st !!! st_id st in
        let (b, nd) :=
          choose_bit (id_bit_number st) disrepancy cur b b_cpl (next_disrepancy st) in
        let* _ := send_bit drv b None in
        let cur := u8 (Z.lor (Z.shiftr cur 0x01) (Z.shiftl b 0x07)) in
        ret (Next (mk_st (<[st_id st := cur]> (st_rom st)) (st_id st)
                         (id_bit_number st) nd)).

(** [--j, --id_bit_number] *)
Definition next_bit (st : search_st) : search_st :=
  mk_st (st_rom st) (st_id st) (u8 (id_bit_number st - 1)) (next_disrepancy st).

(** [++id] *)
Definition next_octet (st : search_st) : search_st :=
  mk_st (st_rom st) (S (st_id st)) (id_bit_number st) (next_disrepancy st).

(** [for (uint8_t j = 8; j > 0; --j, --id_bit_number)], started with [j]. *)
Fixpoint search_bits (j : nat) (disrepancy : Z) (st : search_st) : M D search_flow :=
  match j with
  | O => ret (Next st)
  | S j' =>
      let* f := search_bit disrepancy st in
      match f with
      | Next st' => search_bits j' disrepancy (next_bit st')
      | _ => ret f
      end
  end.

(** [for (id_bit_number = 64; id_bit_number > 0;)].  The recursion is on a
    bound for the number of turns; [id_bit_number] drops by eight in each, so
    that the bound 8 is never exhausted (lemma [search_octets_bound]). *)
Fixpoint search_octets (n : nat) (disrepancy : Z) (st : search_st) : M D search_flow :=
  if id_bit_number st >? 0 then
    match n with
    | O => ret (GotoOut st)
    | S n' =>
        let* f := search_bits 8 disrepancy st in
        match f with
        | Next st' => search_octets n' disrepancy (next_octet st')
        | _ => ret f
        end
    end
  else ret (Next st).

(** [rom_id] is the caller's [ow_rom_t]; its content after the call is
    returned next to the result and the session. *)
Definition ow_search_with_command_raw (ow : ow_t) (cmd : Z) (rom_id : ow_rom_t)
  : M D (owr_t * ow_t * ow_rom_t) :=
  if disrepancy ow =? 0 then
    let (_, ow) := ow_search_reset_raw ow in
    ret (owERRNODEV, ow, rom_id)
  else
    let* res := ow_reset_raw drv in
    if negb (owr_eqb res owOK) then ret (res, ow, rom_id)
    else
      let* _ := ow_write_byte_ex_raw drv cmd None in
      let st := mk_st (rom ow) 0 64 OW_LAST_DEV in
      let* f := search_octets 8 (disrepancy ow) st in
      match f with
      | ReturnTxRx st => ret (owERRTXRX, mk_ow (st_rom st) (disrepancy ow), rom_id)
      | Next st | GotoOut st =>
          let ow := mk_ow (st_rom st) (next_disrepancy st) in
          ret (if id_bit_number st =? 0 then owOK else owERRNODEV, ow, rom ow)
      end.

Definition ow_search_with_command (ow : ow_t) (cmd : Z) (rom_id : ow_rom_t)
  : M D (owr_t * ow_t * ow_rom_t) :=
  let* _ := ow_protect 1 in
  let* res := ow_search_with_command_raw ow cmd rom_id in
  let* _ := ow_unprotect 1 in
  ret res.

Definition ow_search_raw (ow : ow_t) (rom_id : ow_rom_t) : M D (owr_t * ow_t * ow_rom_t) :=
  ow_search_with_command_raw ow OW_CMD_SEARCHROM rom_id.

Definition ow_search (ow : ow_t) (rom_id : ow_rom_t) : M D (owr_t * ow_t * ow_rom_t) :=
  let* _ := ow_protect 1 in
  let* res := ow_search_raw ow rom_id in
  let* _ := ow_unprotect 1 in
  ret res.

(** ** Batch search *)

(** A local [ow_rom_t] before anything is stored in it. *)
Definition rom_uninit : ow_rom_t := replicate 8 0.

Section Callback.

(** [ow_search_cb_fn]: the visitor gets the session, the ROM (or [NULL]),
    the index and its argument; it may use the transport, and what it keeps
    behind [arg] is a value of [U]. *)
Context {U : Type}.
Variable func : ow_t -> option ow_rom_t -> nat -> U -> M D (owr_t * U).

(** The [for] loop of [ow_search_with_command_callback], entered with the
    current [res]; [None] when the bound on the number of turns runs out. *)
Fixpoint callback_loop (n : nat) (cmd : Z) (res : owr_t) (ow : ow_t)
    (rom_id : ow_rom_t) (i : nat) (arg : U) : M D (option (owr_t * ow_t * nat * U)) :=
  match n with
  | O => ret None
  | S n' =>
      if owr_eqb res owOK then
        let* (res, ow, rom_id) := ow_search_with_command_raw ow cmd rom_id in
        if owr_eqb res owOK then
          let* (res, arg) := func ow (Some rom_id) i arg in
          if negb (owr_eqb res owOK) then ret (Some (res, ow, i, arg))
          else callback_loop n' cmd res ow rom_id (S i) arg
        else ret (Some (res, ow, i, arg))
      else ret (Some (res, ow, i, arg))
  end.

(** The tail of the function, after the loop. *)
Definition callback_finish (roms_found : option nat) (res : owr_t) (ow : ow_t)
    (i : nat) (arg : U) : M D (owr_t * ow_t * option nat * U) :=
  let* (_, arg) := func ow None i arg in
  let* _ := ow_unprotect 1 in
  let roms_found := match roms_found with Some _ => Some i | None => None end in
  let res := if owr_eqb res owERRNODEV then owOK else res in
  ret (res, ow, roms_found, arg).

Definition ow_search_with_command_callback (n : nat) (ow : ow_t) (cmd : Z)
    (roms_found : option nat) (arg : U)
  : M D (option (owr_t * ow_t * option nat * U)) :=
  let* _ := ow_protect 1 in
  let (res, ow) := ow_search_reset_raw ow in
  let* r := callback_loop n cmd res ow rom_uninit 0 arg in
  match r with
  | None => ret None
  | Some (res, ow, i, arg) =>
      let* x := callback_finish roms_found res ow i arg in
      ret (Some x)
  end.

Definition ow_search_with_callback (n : nat) (ow : ow_t)
    (roms_found : option nat) (arg : U)
  : M D (option (owr_t * ow_t * option nat * U)) :=
  ow_search_with_command_callback n ow OW_CMD_SEARCHROM roms_found arg.

End Callback.

(** The [for] loop of [ow_search_devices_with_command_raw]; [n] is
    [rom_len - cnt]. *)
Fixpoint devices_loop (n : nat) (cmd : Z) (res : owr_t) (ow : ow_t)
    (rom_id_arr : list ow_rom_t) (cnt : nat)
  : M D (owr_t * ow_t * list ow_rom_t * nat) :=
  match n with
  | O => ret (res, ow, rom_id_arr, cnt)
  | S n' =>
      let* (res, ow, r) := ow_search_with_command_raw ow cmd (rom_id_arr !!! cnt) in
      let rom_id_arr := <[cnt := r]> rom_id_arr in
      if negb (owr_eqb res owOK) then ret (res, ow, rom_id_arr, cnt)
      else devices_loop n' cmd res ow rom_id_arr (S cnt)
  end.

Definition ow_search_devices_with_command_raw (ow : ow_t) (cmd : Z)
    (rom_id_arr : list ow_rom_t) (rom_len : nat) (roms_found : option nat)
  : M D (owr_t * ow_t * list ow_rom_t * option nat) :=
  let (res, ow) := ow_search_reset_raw ow in
  let* (res, ow, rom_id_arr, cnt) := devices_loop rom_len cmd res ow rom_id_arr 0 in
  let roms_found := match roms_found with Some _ => Some cnt | None => None end in
  let res := if owr_eqb res owERRNODEV && (0 <? cnt)%nat then owOK else res in
  ret (res, ow, rom_id_arr, roms_found).

Definition ow_search_devices_raw (ow : ow_t) (rom_id_arr : list ow_rom_t)
    (rom_len : nat) (roms_found : option nat)
  : M D (owr_t * ow_t * list ow_rom_t * option nat) :=
  ow_search_devices_with_command_raw ow OW_CMD_SEARCHROM rom_id_arr rom_len roms_found.

(** Successive [ow_search_raw] calls into one [rom_id], up to [n] of them
    and until one does not return [owOK]: the ROMs returned, and the result
    that ended the run. *)
Fixpoint enumerate (n : nat) (ow : ow_t) (rom_id : ow_rom_t)
  : M D (list ow_rom_t * option owr_t * ow_t) :=
  match n with
  | O => ret ([], None, ow)
  | S n' =>
      let* (res, ow, rom_id) := ow_search_raw ow rom_id in
      if owr_eqb res owOK then
        let* (roms, e, ow) := enumerate n' ow rom_id in
        ret (rom_id :: roms, e, ow)
      else ret ([], Some res, ow)
  end.

End Search.

(** ** Addressing, and the deprecated byte and bit calls *)

Section Addressing.

Context {D : Type} (drv : ow_ll_drv_t D).




(** The deprecated calls: the local that receives the value is handed over
    as a cell, and the error result is dropped for [0x00]. *)
Definition ow_write_byte_raw (b : Z) : M D Z :=
  let* (res, r) := ow_write_byte_ex_raw drv b (Some 0) in
  ret (if owr_eqb res owOK then default 0 r else 0x00).

Definition ow_read_byte_raw : M D Z :=
  let* (res, br) := ow_read_byte_ex_raw drv (Some 0) in
  ret (if owr_eqb res owOK then default 0 br else 0x00).

Definition ow_read_bit_raw : M D Z :=
  let* (res, br) := ow_read_bit_ex_raw drv (Some 0) in
  ret (if owr_eqb res owOK then default 0 br else 0x00).

End Addressing.

(** ** CRC *)

(** One turn of the inner loop of [ow_crc]: the pair is ([crc], [inbyte]). *)
Definition crc_bit (s : Z * Z) : Z * Z :=
  let (crc, inbyte) := s in
  let mix := Z.land (Z.lxor crc inbyte) 0x01 in
  let crc := Z.shiftr crc 1 in
  let crc := if mix >? 0 then u8 (Z.lxor crc 0x8C) else crc in
  (crc, Z.shiftr inbyte 0x01).

(** The inner loop: eight turns for one input octet. *)
Definition crc_octet (crc inbyte : Z) : Z :=
  fst (Nat.iter 8 crc_bit (crc, inbyte)).

(** [ow_crc(in, len)]: [in] is [None] for [NULL], and otherwise holds at
    least the [len] octets read. *)
Definition ow_crc (in_ : option (list Z)) (len : nat) : Z :=
  match in_ with
  | None => 0
  | Some d => if (len =? 0)%nat then 0 else fold_left crc_octet (take len d) 0
  end.

(** ** Transports to run the library against *)

(** A transport with nothing behind the UART but a fixed answer: a baudrate
    is accepted when [baud_ok] says so, and an exchange succeeds when
    [xfer_ok] is set and then samples [sample] for every octet. *)
Definition fixed_tx_rx (xfer_ok : bool) (sample : Z) (tx : list Z) (d : unit)
  : bool * list Z * unit :=
  (xfer_ok, map (fun _ => sample) tx, d).

Lemma fixed_tx_rx_length xfer_ok sample tx d :
  length (snd (fst (fixed_tx_rx xfer_ok sample tx d))) = length tx.
Proof. apply length_map. Qed.

Definition fixed_drv (baud_ok : Z -> bool) (xfer_ok : bool) (sample : Z)
  : ow_ll_drv_t unit :=
  {| ll_init d := (true, d);
     ll_deinit d := (true, d);
     ll_set_baudrate baud d := (baud_ok baud, d);
     ll_tx_rx := fixed_tx_rx xfer_ok sample;
     ll_tx_rx_length := fixed_tx_rx_length xfer_ok sample |}.

(** A transport that plays back a script: every octet exchanged samples the
    next octet of the script, and [0xFF] (the released line) once the script
    is used up. *)
Fixpoint script_exchange (tx : list Z) (d : list Z) : list Z * list Z :=
  match tx with
  | [] => ([], d)
  | _ :: tx' =>
      let (rx, d') := script_exchange tx' (tail d) in
      (default 0xFF (head d) :: rx, d')
  end.

Definition script_tx_rx (tx : list Z) (d : list Z) : bool * list Z * list Z :=
  let (rx, d') := script_exchange tx d in (true, rx, d').

Lemma script_tx_rx_length tx d : length (snd (fst (script_tx_rx tx d))) = length tx.
Proof.
  unfold script_tx_rx. revert d. induction tx as [|o tx IH]; intros d; [done|].
  simpl. specialize (IH (tail d)).
  destruct (script_exchange tx (tail d)) as [rx d']. simpl in *. by rewrite IH.
Qed.

Definition script_drv : ow_ll_drv_t (list Z) :=
  {| ll_init d := (true, d);
     ll_deinit d := (true, d);
     ll_set_baudrate baud d := (true, d);
     ll_tx_rx := script_tx_rx;
     ll_tx_rx_length := script_tx_rx_length |}.

(** *** A bus of 1-Wire slaves behind the UART

    Each slave shifts its ROM out LSB first.  The ROM bits in wire order: *)
Definition rom_bits (r : ow_rom_t) : list bool :=
  map (fun k : nat => Z.testbit (r !!! (k / 8)%nat) (Z.of_nat (k mod 8))) (seq 0 64).

(** The three time slots spent on one ROM bit of a search: the slaves send
    the bit, then its complement, then the master writes the direction. *)
Inductive search_slot : Type := SlotBit | SlotCpl | SlotDir.

(** What the slaves are doing: nothing until the next reset, receiving the
    ROM command ([n] bits in, value [acc] so far), or taking part in a
    search. *)
Inductive bus_phase : Type :=
| BusIdle
| BusCommand (n : nat) (acc : Z)
| BusSearch (s : search_slot).

(** [bus_regs] holds, for every slave still taking part in the search, the
    ROM bits it has not yet shifted out. *)
Record bus : Type := mk_bus {
  bus_devices : list ow_rom_t;
  bus_regs : list (list bool);
  bus_phase_of : bus_phase;
  bus_baud : Z
}.

(** The octet sampled when a slave holds the line low after the start bit
    of [tx]; it is never [0xFF]. *)
Definition pulled_low (tx : Z) : Z := Z.land tx 0xFC.

(** The octet sampled at 9600 baud when a presence pulse answers [0xF0]. *)
Definition presence_octet : Z := 0xE0.

Definition reg_bit (reg : list bool) : bool := default true (head reg).

(** The slaves that go on after the master wrote [c], each with its next
    bit in front. *)
Definition select (c : bool) (A : list (list bool)) : list (list bool) :=
  map (drop 1) (filter (fun reg => reg_bit reg = c) A).

(** One UART octet on the wire: the reset pulse at 9600 baud, a time slot
    at any other rate. *)
Definition bus_slot (tx : Z) (b : bus) : Z * bus :=
  if bus_baud b =? 9600 then
    if tx =? OW_RESET_BYTE then
      match bus_devices b with
      | [] => (tx, mk_bus (bus_devices b) [] BusIdle (bus_baud b))
      | _ :: _ => (presence_octet, mk_bus (bus_devices b) [] (BusCommand 0 0) (bus_baud b))
      end
    else (tx, b)
  else
    let m := tx =? 0xFF in
    match bus_phase_of b with
    | BusIdle => (tx, b)
    | BusCommand n acc =>
        let acc := if m then Z.lor acc (Z.shiftl 1 (Z.of_nat n)) else acc in
        if (n =? 7)%nat then
          if acc =? OW_CMD_SEARCHROM then
            (tx, mk_bus (bus_devices b) (map rom_bits (bus_devices b))
                        (BusSearch SlotBit) (bus_baud b))
          else (tx, mk_bus (bus_devices b) [] BusIdle (bus_baud b))
        else (tx, mk_bus (bus_devices b) (bus_regs b) (BusCommand (S n) acc) (bus_baud b))
    | BusSearch SlotBit =>
        (if existsb (fun reg => negb (reg_bit reg)) (bus_regs b) then pulled_low tx else tx,
         mk_bus (bus_devices b) (bus_regs b) (BusSearch SlotCpl) (bus_baud b))
    | BusSearch SlotCpl =>
        (if existsb reg_bit (bus_regs b) then pulled_low tx else tx,
         mk_bus (bus_devices b) (bus_regs b) (BusSearch SlotDir) (bus_baud b))
    | BusSearch SlotDir =>
        let regs := select m (bus_regs b) in
        (tx, mk_bus (bus_devices b) regs
                    (if forallb (fun reg => bool_decide (reg = [])) regs
                     then BusIdle else BusSearch SlotBit)
                    (bus_baud b))
    end.

Fixpoint bus_exchange (tx : list Z) (b : bus) : list Z * bus :=
  match tx with
  | [] => ([], b)
  | o :: tx' =>
      let (r, b) := bus_slot o b in
      let (rx, b) := bus_exchange tx' b in
      (r :: rx, b)
  end.

Definition bus_tx_rx (tx : list Z) (b : bus) : bool * list Z * bus :=
  let (rx, b) := bus_exchange tx b in (true, rx, b).

Lemma bus_tx_rx_length tx b : length (snd (fst (bus_tx_rx tx b))) = length tx.
Proof.
  unfold bus_tx_rx. revert b. induction tx as [|o tx IH]; intros b; [done|].
  simpl. destruct (bus_slot o b) as [r b1]. specialize (IH b1).
  destruct (bus_exchange tx b1) as [rx b2]. simpl in *. by rewrite IH.
Qed.

Definition bus_drv : ow_ll_drv_t bus :=
  {| ll_init b := (true, b);
     ll_deinit b := (true, b);
     ll_set_baudrate baud b :=
       (true, mk_bus (bus_devices b) (bus_regs b) (bus_phase_of b) baud);
     ll_tx_rx := bus_tx_rx;
     ll_tx_rx_length := bus_tx_rx_length |}.

(** The bus with the slaves [devs] attached, as [ll_init] leaves it. *)
Definition bus_of (devs : list ow_rom_t) : world bus :=
  mk_world (mk_bus devs [] BusIdle 115200) [].

(** A ROM as the number whose most significant bit is the first bit on the
    wire (bit 0 of octet 0) and whose least significant bit is the last. *)
Definition bits_value (l : list bool) : Z :=
  fold_left (fun acc (b : bool) => 2 * acc + (if b then 1 else 0)) l 0.

Definition wire_value (r : ow_rom_t) : Z := bits_value (rom_bits r).

(** A ROM as a 64-bit little-endian integer. *)
Definition le_value (r : ow_rom_t) : Z :=
  fold_right (fun o acc => o + 256 * acc) 0 r.

(** *** A transport whose eight-octet exchanges are reported as failed

    It does to the line and to its own state what [drv] does, but answers
    [false] to every exchange of eight octets, the length only
    [ow_write_byte_ex_raw] uses. *)
Definition deaf_tx_rx {D : Type} (drv : ow_ll_drv_t D) (tx : list Z) (d : D)
  : bool * list Z * D :=
  let '(ok, rx, d') := ll_tx_rx drv tx d in
  (ok && negb (length tx =? 8)%nat, rx, d').

Lemma deaf_tx_rx_length {D : Type} (drv : ow_ll_drv_t D) tx d :
  length (snd (fst (deaf_tx_rx drv tx d))) = length tx.
Proof.
  unfold deaf_tx_rx. pose proof (ll_tx_rx_length drv tx d) as H.
  by destruct (ll_tx_rx drv tx d) as [[ok rx] d'].
Qed.

Definition deaf_drv {D : Type} (drv : ow_ll_drv_t D) : ow_ll_drv_t D :=
  {| ll_init := ll_init drv;
     ll_deinit := ll_deinit drv;
     ll_set_baudrate := ll_set_baudrate drv;
     ll_tx_rx := deaf_tx_rx drv;
     ll_tx_rx_length := deaf_tx_rx_length drv |}.

(** ** The search as a walk down the tree of ROM bits

    One pass of the search over the bus of slaves, told on bits: [A] holds
    the unread ROM bits of the slaves still taking part, [r] the unread bits
    of the ROM that the pass before left in the session, [p] is
    [id_bit_number].  The pass of the code over [bus_drv] is shown below to
    compute this walk ([search_pass_bus]). *)

(** The bits of an octet, bit 0 first. *)
Definition octet_bits (x : Z) : list bool :=
  map (fun i : nat => Z.testbit x (Z.of_nat i)) (seq 0 8).

(** [choose_bit] on truth values, [stored] being the low bit of the octet
    under [id]. *)
Definition choose (p d : Z) (stored b b_cpl : bool) (nd : Z) : bool * Z :=
  if negb b && negb b_cpl then
    if (p <? d) || (stored && negb (d =? p)) then (true, p) else (false, nd)
  else (b, nd).

Fixpoint walk (d : Z) (n : nat) (p : Z) (A : list (list bool)) (r : list bool) (nd : Z)
  : list bool * list (list bool) * Z :=
  match n with
  | O => ([], A, nd)
  | S n' =>
      let b := forallb reg_bit A in
      let b_cpl := forallb (fun reg => negb (reg_bit reg)) A in
      let '(c, nd1) := choose p d (default false (head r)) b b_cpl nd in
      let '(cs, A', nd') := walk d n' (p - 1) (select c A) (tail r) nd1 in
      (c :: cs, A', nd')
  end.

(** ** Vocabulary of the statements *)

(** The resolution of a discrepancy as the specification words it, kept for
    the comparison with [choose_bit]: below the marker the stored bit, at
    the marker 1, above the marker 0 with the position recorded.  The pair
    is the bit written and the pending discrepancy. *)
Definition spec_choice (p d stored nd : Z) : Z * Z :=
  if p <? d then (stored, nd)
  else if p =? d then (1, nd)
  else (0, p).

(** What a turn of the loop may change: one octet of the ROM buffer, the one
    under [id], and the pending discrepancy, which either stays or becomes
    the current position. *)
Definition bit_frame (st st' : search_st) : Prop :=
  st_id st' = st_id st /\
  id_bit_number st' = id_bit_number st /\
  length (st_rom st') = length (st_rom st) /\
  (forall k : nat, k <> st_id st -> st_rom st' !! k = st_rom st !! k) /\
  (next_disrepancy st' = next_disrepancy st \/ next_disrepancy st' = id_bit_number st).

(** The same over a stretch of the loop that started at [st]: octets past
    the one under [id] are still as they were, and a pending discrepancy, if
    it was recorded in the stretch, is a position visited in it. *)
Definition loop_frame (st st' : search_st) : Prop :=
  (st_id st <= st_id st')%nat /\
  length (st_rom st') = length (st_rom st) /\
  (forall k : nat, (k < st_id st)%nat \/ (st_id st' < k)%nat ->
     st_rom st' !! k = st_rom st !! k) /\
  (next_disrepancy st' = next_disrepancy st \/
   id_bit_number st' <= next_disrepancy st' <= id_bit_number st).

(** The two reads of 1 that end a pass. *)
Definition silent_reads {D : Type} (drv : ow_ll_drv_t D) (w' : world D) : Prop :=
  exists w0 w1, send_bit drv 1 (Some 0) w0 = (owOK, Some 1, w1) /\
                send_bit drv 1 (Some 0) w1 = (owOK, Some 1, w').

(** Registers that all hold [n] bits, at least one register. *)
Definition regs_ok (n : nat) (A : list (list bool)) : Prop :=
  A <> [] /\ Forall (fun reg => length reg = n) A.

(** Position [k] of the ROM [cs] is a branch among the ROMs [A]: [cs] has 1
    there and some ROM with the same bits before has 0. *)
Definition branch (A : list (list bool)) (cs : list bool) (k : nat) : Prop :=
  cs !! k = Some true /\
  exists s, s ∈ A /\ take k s = take k cs /\ s !! k = Some false.

(** The bus in the middle of a search with [p] ROM bits to go. *)
Definition bus_at (devs : list ow_rom_t) (p : Z) (A : list (list bool)) : bus :=
  mk_bus devs A (if p =? 0 then BusIdle else BusSearch SlotBit) 115200.

(** The store through [id] at the end of a turn that wrote [c]. *)
Definition octet_shift (cur : Z) (c : bool) : Z :=
  u8 (Z.lor (Z.shiftr cur 1) (Z.shiftl (Z.b2z c) 7)).

(** The octets of a ROM buffer the library may hold. *)
Definition octets_ok (r : list Z) : Prop := Forall (fun x => 0 <= x < 256) r.

(** The bits of a run of octets, in wire order. *)
Definition octets_bits (r : list Z) : list bool := concat (map octet_bits r).

(** A session whose ROM buffer is the array of eight octets. *)
Definition rom_ok (r : list Z) : Prop := length r = 8%nat /\ octets_ok r.

(** What the session holds between two calls, on the slaves' ROMs [S]: the
    ROM [r] found last, and a marker that names the last branch of [r], or
    is 0 when [r] has no branch. *)
Definition settled (S : list (list bool)) (r : list bool) (d : Z) : Prop :=
  r ∈ S /\
  ((d = 0 /\ forall k, ~ branch S r k) \/
   (exists i : nat, (i < 64)%nat /\ d = 64 - Z.of_nat i /\ branch S r i /\
      forall k, (i < k)%nat -> ~ branch S r k)).

(** A run of numbers each below the one before, the first below [v]. *)
Fixpoint descending (v : Z) (l : list Z) : Prop :=
  match l with
  | [] => True
  | x :: l' => x < v /\ descending x l'
  end.


(** The three exchanges of a turn of the search loop that wrote [c]: two
    read slots and the direction. *)
Definition bit_slots (c : bool) : list ll_call :=
  [CallTxRx [0xFF]; CallTxRx [0xFF]; CallTxRx [if c then 0xFF else 0x00]].

(** The exchanges of the turns that wrote the bits [cs]. *)
Definition pass_slots (cs : list bool) : list ll_call := concat (map bit_slots cs).

(** The calls of a reset and of the command that follows it. *)
Definition search_prologue (cmd : Z) : list ll_call :=
  [CallSetBaudrate 9600; CallTxRx [OW_RESET_BYTE]; CallSetBaudrate 115200;
   CallTxRx (tr_prepare cmd)].

(** The values the marker [ow->disrepancy] takes: a bit position counted
    from 64 down to 1, 0 after the last device, [0xFF] before the first. *)
Definition marker_ok (d : Z) : Prop := 0 <= d <= 64 \/ d = OW_FIRST_DEV.

Definition session_ok (ow : ow_t) : Prop := rom_ok (rom ow) /\ marker_ok (disrepancy ow).

(** The loop variables a turn or a loop ends with, however it ends. *)
Definition flow_st (f : search_flow) : search_st :=
  match f with
  | Next st | GotoOut st | ReturnTxRx st => st
  end.


(** The calls a visitor gets for the ROMs [roms], the first with index [i]. *)
Fixpoint visits (i : nat) (roms : list ow_rom_t) : list (nat * option ow_rom_t) :=
  match roms with
  | [] => []
  | r :: roms' => (i, Some r) :: visits (S i) roms'
  end.

(** * Properties *)

(** ** Octet arithmetic *)

Lemma u8_range x : 0 <= u8 x < 256.
Proof.
  unfold u8. change 0xFF with (Z.ones 8). rewrite Z.land_ones by lia.
  apply Z.mod_pos_bound. lia.
Qed.

Lemma u8_testbit x i : 0 <= i -> Z.testbit (u8 x) i = Z.testbit x i && (i <? 8).
Proof.
  intros Hi. unfold u8. change 0xFF with (Z.ones 8).
  rewrite Z.land_spec. f_equal.
  destruct (Z.ltb_spec i 8).
  - apply Z.ones_spec_low. lia.
  - apply Z.ones_spec_high. lia.
Qed.

Lemma octet_testbit_high x i : 0 <= x < 256 -> 8 <= i -> Z.testbit x i = false.
Proof.
  intros Hx Hi. destruct (Z.eq_dec x 0) as [->|Hne]; [apply Z.bits_0|].
  apply Z.bits_above_log2; [lia|].
  assert (Z.log2 x < 8); [|lia]. apply Z.log2_lt_pow2; lia.
Qed.

Lemma truthy_land_shiftl x i :
  0 <= i -> truthy (Z.land x (Z.shiftl 1 i)) = Z.testbit x i.
Proof.
  intros Hi. unfold truthy. rewrite Z.shiftl_1_l.
  destruct (Z.testbit x i) eqn:Hb.
  - apply negb_true_iff, Z.eqb_neq. intros H0.
    assert (Z.testbit (Z.land x (2 ^ i)) i = false) as Hc by (rewrite H0; apply Z.bits_0).
    rewrite Z.land_spec, Hb, Z.pow2_bits_true in Hc by lia. discriminate.
  - apply negb_false_iff, Z.eqb_eq. apply Z.bits_inj'. intros n Hn.
    rewrite Z.land_spec, Z.bits_0, Z.pow2_bits_eqb by lia.
    destruct (Z.eqb_spec i n) as [->|]; [by rewrite Hb | apply andb_false_r].
Qed.

Lemma truthy_land_1 x : truthy (Z.land x 0x01) = Z.testbit x 0.
Proof. apply (truthy_land_shiftl x 0). lia. Qed.

(** ** The two loops of the byte exchange *)

Lemma tr_prepare_lookup btw (i : nat) :
  (i < 8)%nat ->
  tr_prepare btw !! i = Some (if Z.testbit btw (Z.of_nat i) then 0xFF else 0x00).
Proof.
  intros Hi. unfold tr_prepare. rewrite list_lookup_fmap.
  rewrite lookup_seq_lt by done. simpl.
  by rewrite truthy_land_shiftl by lia.
Qed.

Lemma tr_collect_upto (tr : list Z) (n : nat) i :
  (n <= 8)%nat -> 0 <= i ->
  Z.testbit
    (fold_left
       (fun (r : Z) (k : nat) =>
          if (tr !!! k) =? 0xFF then u8 (Z.lor r (Z.shiftl 0x01 (Z.of_nat k))) else r)
       (seq 0 n) 0) i
  = (i <? Z.of_nat n) && ((tr !!! Z.to_nat i) =? 0xFF).
Proof.
  intros Hn Hi. induction n as [|n IH].
  - simpl. rewrite Z.bits_0. destruct (Z.ltb_spec i (Z.of_nat 0)); [lia|done].
  - rewrite seq_S, fold_left_app. simpl. specialize (IH ltac:(lia)).
    destruct (Z.eqb_spec (tr !!! n) 0xFF) as [Hff|Hff].
    + rewrite u8_testbit, Z.lor_spec, IH, Z.shiftl_1_l, Z.pow2_bits_eqb by lia.
      destruct (Z.eqb_spec (Z.of_nat n) i) as [Heq|Hne].
      * replace (Z.to_nat i) with n by lia. rewrite Hff. simpl.
        rewrite orb_true_r.
        destruct (Z.ltb_spec i 8), (Z.ltb_spec i (Z.of_nat (S n))); done || lia.
      * rewrite orb_false_r.
        destruct (Z.ltb_spec i (Z.of_nat n)), (Z.ltb_spec i (Z.of_nat (S n)));
          destruct (Z.ltb_spec i 8); simpl; done || lia.
    + rewrite IH.
      destruct (Z.ltb_spec i (Z.of_nat n)), (Z.ltb_spec i (Z.of_nat (S n)));
        simpl; try done; try lia.
      replace (Z.to_nat i) with n by lia.
      symmetry. by apply Z.eqb_neq.
Qed.

Lemma tr_collect_testbit (tr : list Z) (i : nat) :
  Z.testbit (tr_collect tr) (Z.of_nat i) = bool_decide (i < 8)%nat && ((tr !!! i) =? 0xFF).
Proof.
  unfold tr_collect. rewrite (tr_collect_upto tr 8) by lia.
  rewrite Nat2Z.id. f_equal.
  destruct (Z.ltb_spec (Z.of_nat i) (Z.of_nat 8)); case_bool_decide; done || lia.
Qed.

(** ** Reset and the byte exchange over any transport *)

Ltac run_calls :=
  unfold bind, ret, call_set_baudrate, call_tx_rx; simpl.

Section EngineFacts.

Context {D : Type} (drv : ow_ll_drv_t D).

(** C3. Whenever [ow_reset_raw] returns [owOK], what it added to the
    transport's trace is exactly [set_baudrate(9600)], one exchange of the
    single octet [0xF0], and [set_baudrate(115200)], in this order; the last
    call before the return restores the bit-mode baudrate. *)
Theorem reset_ok_trace (w w' : world D) :
  ow_reset_raw drv w = (owOK, w') ->
  ll_trace w' =
    ll_trace w ++ [CallSetBaudrate 9600; CallTxRx [0xF0]; CallSetBaudrate 115200].
Proof.
  unfold ow_reset_raw. run_calls.
  destruct (ll_set_baudrate drv 9600 (ll_state w)) as [ok1 d1]. simpl.
  destruct ok1; simpl; [|discriminate].
  destruct (ll_tx_rx drv [OW_RESET_BYTE] d1) as [[ok2 rx] d2]. simpl.
  destruct ok2; simpl; [|discriminate].
  destruct (ll_set_baudrate drv 115200 d2) as [ok3 d3]. simpl.
  destruct ok3; simpl; [|discriminate].
  destruct ((rx !!! 0%nat =? 0) || (rx !!! 0%nat =? OW_RESET_BYTE)); [discriminate|].
  intros [= <-]. simpl. by rewrite <- !app_assoc.
Qed.

(** C4. When both baudrate changes and the exchange succeed, the result is
    decided by the sampled octet [b]: [owERRPRESENCE] for [0x00] and for
    [0xF0], [owOK] for every other value. *)
Theorem reset_presence (w : world D) (d1 d2 d3 : D) (b : Z) :
  ll_set_baudrate drv 9600 (ll_state w) = (true, d1) ->
  ll_tx_rx drv [0xF0] d1 = (true, [b], d2) ->
  ll_set_baudrate drv 115200 d2 = (true, d3) ->
  fst (ow_reset_raw drv w) =
    if bool_decide (b = 0x00 \/ b = 0xF0) then owERRPRESENCE else owOK.
Proof.
  intros H1 H2 H3. unfold ow_reset_raw. run_calls.
  rewrite H1. simpl. unfold OW_RESET_BYTE. rewrite H2. simpl. rewrite H3. simpl.
  case_bool_decide as Hb.
  - destruct Hb as [-> | ->]; reflexivity.
  - destruct (Z.eqb_spec b 0); [tauto|]. destruct (Z.eqb_spec b 240); [tauto|]. done.
Qed.

(** C8. If [set_baudrate(9600)] is refused, [ow_reset_raw] returns
    [owERRBAUD] and that refused call is the only one the transport saw: no
    exchange is issued.  If the restoring [set_baudrate(115200)] is refused
    after a successful exchange, the result is [owERRBAUD] as well. *)
Theorem reset_baud_failure (w : world D) :
  (forall d1,
     ll_set_baudrate drv 9600 (ll_state w) = (false, d1) ->
     ow_reset_raw drv w = (owERRBAUD, mk_world d1 (ll_trace w ++ [CallSetBaudrate 9600])))
  /\
  (forall d1 rx d2 d3,
     ll_set_baudrate drv 9600 (ll_state w) = (true, d1) ->
     ll_tx_rx drv [0xF0] d1 = (true, rx, d2) ->
     ll_set_baudrate drv 115200 d2 = (false, d3) ->
     fst (ow_reset_raw drv w) = owERRBAUD).
Proof.
  split.
  - intros d1 H1. unfold ow_reset_raw. run_calls. by rewrite H1.
  - intros d1 rx d2 d3 H1 H2 H3. unfold ow_reset_raw. run_calls.
    rewrite H1. simpl. unfold OW_RESET_BYTE. rewrite H2. simpl. by rewrite H3.
Qed.

(** C5. [ow_write_byte_ex_raw] makes exactly one call to the transport, an
    exchange of eight octets of which the [i]-th is [0xFF] when bit [i] of
    the byte is set and [0x00] otherwise; when the exchange succeeds the
    byte stored through a non-null [br] has bit [i] set exactly when the
    [i]-th received octet is [0xFF]; and [ow_read_byte_ex_raw] is this very
    operation on the byte [0xFF]. *)
Theorem write_byte_exchange (btw : Z) (br : option Z) (w : world D) :
  let tx := tr_prepare btw in
  exists ok rx d',
    ll_tx_rx drv tx (ll_state w) = (ok, rx, d') /\
    length tx = 8%nat /\ length rx = 8%nat /\
    (forall i : nat, (i < 8)%nat ->
       tx !! i = Some (if Z.testbit btw (Z.of_nat i) then 0xFF else 0x00)) /\
    snd (ow_write_byte_ex_raw drv btw br w) = mk_world d' (ll_trace w ++ [CallTxRx tx]) /\
    (ok = true ->
       exists r, fst (ow_write_byte_ex_raw drv btw br w) = (owOK, SET_NOT_NULL br r) /\
         forall i : nat, (i < 8)%nat ->
           Z.testbit r (Z.of_nat i) = bool_decide (rx !! i = Some 0xFF)) /\
    ow_read_byte_ex_raw drv br w = ow_write_byte_ex_raw drv 0xFF br w.
Proof.
  intros tx.
  pose proof (ll_tx_rx_length drv tx (ll_state w)) as Hlen.
  destruct (ll_tx_rx drv tx (ll_state w)) as [[ok rx] d'] eqn:Hx. simpl in Hlen.
  exists ok, rx, d'. split; [done|]. split; [done|]. split; [done|].
  split; [apply tr_prepare_lookup|].
  unfold ow_write_byte_ex_raw. run_calls. fold tx. rewrite Hx. simpl.
  split; [by destruct ok, br|]. split; [|done].
  intros ->. exists (tr_collect rx). split; [by destruct br|].
  intros i Hi. rewrite tr_collect_testbit.
  rewrite bool_decide_eq_true_2 by done. simpl.
  destruct (lookup_lt_is_Some_2 rx i) as [x Hxi]; [rewrite Hlen; done|].
  rewrite (list_lookup_total_correct _ _ _ Hxi), Hxi.
  destruct (Z.eqb_spec x 255) as [->|Hne].
  - by rewrite bool_decide_eq_true_2.
  - rewrite bool_decide_eq_false_2; [done|]. by intros [= ?].
Qed.

End EngineFacts.

(** The hypotheses of C3, C4 and C8 are met by transports with a fixed
    answer. *)
Lemma reset_ok_trace_witness :
  ll_trace (snd (ow_reset_raw (fixed_drv (fun _ => true) true 0x50) (mk_world tt [])))
  = [] ++ [CallSetBaudrate 9600; CallTxRx [0xF0]; CallSetBaudrate 115200].
Proof.
  apply (reset_ok_trace (fixed_drv (fun _ => true) true 0x50) (mk_world tt [])).
  reflexivity.
Defined.

Lemma reset_presence_witness :
  fst (ow_reset_raw (fixed_drv (fun _ => true) true 0x50) (mk_world tt [])) = owOK
  /\ fst (ow_reset_raw (fixed_drv (fun _ => true) true 0x00) (mk_world tt [])) = owERRPRESENCE
  /\ fst (ow_reset_raw (fixed_drv (fun _ => true) true 0xF0) (mk_world tt [])) = owERRPRESENCE.
Proof.
  split; [|split].
  - apply (reset_presence (fixed_drv (fun _ => true) true 0x50) (mk_world tt []) tt tt tt 0x50);
      reflexivity.
  - apply (reset_presence (fixed_drv (fun _ => true) true 0x00) (mk_world tt []) tt tt tt 0x00);
      reflexivity.
  - apply (reset_presence (fixed_drv (fun _ => true) true 0xF0) (mk_world tt []) tt tt tt 0xF0);
      reflexivity.
Defined.

Lemma reset_baud_failure_witness :
  ow_reset_raw (fixed_drv (fun _ => false) true 0x50) (mk_world tt [])
    = (owERRBAUD, mk_world tt [CallSetBaudrate 9600])
  /\ fst (ow_reset_raw (fixed_drv (fun baud => baud =? 9600) true 0x50) (mk_world tt []))
    = owERRBAUD.
Proof.
  split.
  - apply (proj1 (reset_baud_failure (fixed_drv (fun _ => false) true 0x50) (mk_world tt [])) tt).
    reflexivity.
  - apply (proj2 (reset_baud_failure (fixed_drv (fun baud => baud =? 9600) true 0x50)
                    (mk_world tt [])) tt [0x50] tt tt); reflexivity.
Defined.

(** ** The CRC chain *)

Lemma crc_bit_range crc inbyte :
  0 <= crc < 256 -> 0 <= fst (crc_bit (crc, inbyte)) < 256.
Proof.
  intros Hc. unfold crc_bit.
  destruct (Z.land (Z.lxor crc inbyte) 1 >? 0); simpl.
  - apply u8_range.
  - rewrite Z.shiftr_div_pow2 by lia. change (2 ^ 1) with 2.
    split; [apply Z.div_pos; lia|]. apply Z.div_lt_upper_bound; lia.
Qed.

Lemma crc_bits_range (n : nat) crc inbyte :
  0 <= crc < 256 -> 0 <= fst (Nat.iter n crc_bit (crc, inbyte)) < 256.
Proof.
  intros Hc. induction n as [|n IH]; [done|].
  simpl. destruct (Nat.iter n crc_bit (crc, inbyte)) as [c i].
  by apply crc_bit_range.
Qed.

Lemma crc_octet_range crc inbyte : 0 <= crc < 256 -> 0 <= crc_octet crc inbyte < 256.
Proof. apply crc_bits_range. Qed.

Lemma crc_fold_range (d : list Z) crc :
  0 <= crc < 256 -> 0 <= fold_left crc_octet d crc < 256.
Proof.
  revert crc. induction d as [|x d IH]; intros crc Hc; [done|].
  simpl. apply IH. by apply crc_octet_range.
Qed.

Lemma ow_crc_fold (d : list Z) : ow_crc (Some d) (length d) = fold_left crc_octet d 0.
Proof.
  unfold ow_crc. rewrite firstn_all. by destruct d.
Qed.

Lemma ow_crc_range (d : list Z) : 0 <= ow_crc (Some d) (length d) < 256.
Proof. rewrite ow_crc_fold. apply crc_fold_range. lia. Qed.

(** An octet run through the register that already holds it clears the
    register: checked for each of the 256 octets. *)
Lemma crc_octet_self c : 0 <= c < 256 -> crc_octet c c = 0.
Proof.
  intros Hc.
  assert (forallb (fun c => crc_octet c c =? 0) (seqZ 0 256) = true) as Hall
    by (vm_compute; reflexivity).
  rewrite forallb_forall in Hall. apply Z.eqb_eq, Hall.
  apply list_elem_of_In, elem_of_seqZ. lia.
Qed.

(** C9. For every octet sequence [buf], the CRC of [buf] followed by its
    own CRC is zero. *)
Theorem crc_chain (buf : list Z) :
  ow_crc (Some (buf ++ [ow_crc (Some buf) (length buf)])) (S (length buf)) = 0.
Proof.
  replace (S (length buf))
    with (length (buf ++ [ow_crc (Some buf) (length buf)]))
    by (rewrite length_app; simpl; lia).
  rewrite (ow_crc_fold (buf ++ _)), fold_left_app. simpl.
  rewrite <- ow_crc_fold. apply crc_octet_self, ow_crc_range.
Qed.

(** ** The search loop over any transport *)

Section SearchFacts.

Context {D : Type} (drv : ow_ll_drv_t D).

Lemma send_bit_result (btw v : Z) (w : world D) :
  let '(r, b, _) := send_bit drv btw (Some v) w in
  (r = owERRTXRX /\ b = Some 0) \/ (r = owOK /\ (b = Some 0 \/ b = Some 1)).
Proof.
  unfold send_bit. run_calls.
  destruct (ll_tx_rx drv _ (ll_state w)) as [[ok rx] d']. simpl.
  destruct ok; simpl; [|by left]. right. split; [done|].
  destruct (rx !!! 0%nat =? 255); auto.
Qed.

Lemma search_bit_frame (d : Z) (st : search_st) (w : world D) :
  match fst (search_bit drv d st w) with
  | Next st' => bit_frame st st'
  | GotoOut st' | ReturnTxRx st' => st' = st
  end.
Proof.
  unfold search_bit, bind.
  destruct (send_bit drv 1 (Some 0) w) as [[r1 b] w1].
  destruct (owr_eqb r1 owOK); simpl; [|done].
  destruct (send_bit drv 1 (Some 0) w1) as [[r2 b_cpl] w2].
  destruct (owr_eqb r2 owOK); simpl; [|done].
  destruct (truthy (default 0 b) && truthy (default 0 b_cpl)); simpl; [done|].
  destruct (choose_bit _ _ _ _ _ _) as [c nd] eqn:Hc.
  destruct (send_bit drv c None w2) as [x w3]. simpl.
  repeat split; simpl.
  - apply length_insert.
  - intros k Hk. by apply list_lookup_insert_ne.
  - unfold choose_bit in Hc.
    destruct (negb _ && negb _); [destruct (force_one _ _ _)|];
      injection Hc as <- <-; auto.
Qed.

Lemma search_bits_frame (j : nat) (d : Z) (st : search_st) (w : world D) :
  Z.of_nat j <= id_bit_number st <= 255 ->
  match fst (search_bits drv j d st w) with
  | Next st' =>
      loop_frame st st' /\ st_id st' = st_id st /\
      id_bit_number st' = id_bit_number st - Z.of_nat j
  | GotoOut st' =>
      loop_frame st st' /\ st_id st' = st_id st /\
      id_bit_number st - Z.of_nat j < id_bit_number st' <= id_bit_number st
  | ReturnTxRx st' => True
  end.
Proof.
  revert st w. induction j as [|j IH]; intros st w Hp.
  - simpl. unfold loop_frame. repeat split; auto; lia.
  - simpl. unfold bind.
    pose proof (search_bit_frame d st w) as Hf.
    destruct (search_bit drv d st w) as [f w1]. simpl in Hf.
    destruct f as [st1|st1|st1]; simpl; [| |done].
    + destruct Hf as (Hid & Hn & Hlen & Hrom & Hnd).
      assert (id_bit_number (next_bit st1) = id_bit_number st - 1) as Hdec.
      { simpl. rewrite Hn. unfold u8. change 0xFF with (Z.ones 8).
        rewrite Z.land_ones, Z.mod_small; lia. }
      specialize (IH (next_bit st1) w1 ltac:(lia)).
      destruct (search_bits drv j d (next_bit st1) w1) as [f w2].
      unfold loop_frame in IH. simpl in *.
      destruct f as [st2|st2|st2]; [| |done].
      * destruct IH as ((Hle & Hlen2 & Hrom2 & Hnd2) & Hid2 & Hn2).
        split; [|split; [congruence|lia]].
        unfold loop_frame. rewrite Hid2, Hid. repeat split; [lia|congruence| |].
        -- intros k Hk. rewrite Hrom2 by (rewrite Hid2, Hid; lia).
           apply Hrom. lia.
        -- destruct Hnd2 as [->|Hr]; [destruct Hnd as [->| ->]; [auto|right; lia]|].
           right. lia.
      * destruct IH as ((Hle & Hlen2 & Hrom2 & Hnd2) & Hid2 & Hn2).
        split; [|split; [congruence|lia]].
        unfold loop_frame. rewrite Hid2, Hid. repeat split; [lia|congruence| |].
        -- intros k Hk. rewrite Hrom2 by (rewrite Hid2, Hid; lia).
           apply Hrom. lia.
        -- destruct Hnd2 as [->|Hr]; [destruct Hnd as [->| ->]; [auto|right; lia]|].
           right. lia.
    + subst st1. unfold loop_frame. repeat split; auto; lia.
Qed.

Lemma search_bits_S (j : nat) (d : Z) (st : search_st) :
  search_bits drv (S j) d st =
    let* f := search_bit drv d st in
    match f with
    | Next st' => search_bits drv j d (next_bit st')
    | _ => ret f
    end.
Proof. reflexivity. Qed.

Lemma search_octets_S (n : nat) (d : Z) (st : search_st) :
  search_octets drv (S n) d st =
    if id_bit_number st >? 0 then
      let* f := search_bits drv 8 d st in
      match f with
      | Next st' => search_octets drv n d (next_octet st')
      | _ => ret f
      end
    else ret (Next st).
Proof. reflexivity. Qed.

Lemma search_octets_frame (n m : nat) (d : Z) (st : search_st) (w : world D) :
  id_bit_number st = 8 * Z.of_nat m -> (m <= n)%nat -> (m <= 8)%nat ->
  match fst (search_octets drv n d st w) with
  | Next st' => loop_frame st st' /\ id_bit_number st' = 0
  | GotoOut st' =>
      loop_frame st st' /\ 0 < id_bit_number st' <= id_bit_number st /\
      Z.of_nat (st_id st') = Z.of_nat (st_id st) +
                             (id_bit_number st - id_bit_number st') / 8
  | ReturnTxRx st' => True
  end.
Proof.
  revert m st w. induction n as [|n IH]; intros m st w Hp Hm Hm8.
  - assert (m = 0%nat) as -> by lia. simpl. rewrite Hp. simpl.
    unfold loop_frame. repeat split; auto; lia.
  - rewrite search_octets_S. destruct (Z.gtb_spec (id_bit_number st) 0) as [Hpos|Hz].
    + unfold bind, ret.
      pose proof (search_bits_frame 8 d st w ltac:(lia)) as Hf.
      destruct (search_bits drv 8 d st w) as [f w1]. simpl in Hf.
      destruct f as [st1|st1|st1]; simpl; [| |done].
      * destruct Hf as ((Hle & Hlen & Hrom & Hnd) & Hid & Hn).
        destruct m as [|m]; [lia|].
        specialize (IH m (next_octet st1) w1 ltac:(simpl; lia) ltac:(lia) ltac:(lia)).
        destruct (search_octets drv n d (next_octet st1) w1) as [f w2].
        unfold loop_frame in IH. simpl in *.
        destruct f as [st2|st2|st2]; [| |done].
        -- destruct IH as ((Hle2 & Hlen2 & Hrom2 & Hnd2) & Hz2).
           split; [|done]. unfold loop_frame.
           repeat split; [lia|congruence| |].
           ++ intros k Hk. rewrite Hrom2 by lia. apply Hrom. lia.
           ++ destruct Hnd2 as [->|Hr]; [destruct Hnd as [->|?]; [auto|right; lia]|].
              right. lia.
        -- destruct IH as ((Hle2 & Hlen2 & Hrom2 & Hnd2) & Hr2 & Hid2).
           split; [|split; [lia|]].
           ++ unfold loop_frame. repeat split; [lia|congruence| |].
              ** intros k Hk. rewrite Hrom2 by lia. apply Hrom. lia.
              ** destruct Hnd2 as [->|Hr]; [destruct Hnd as [->|?]; [auto|right; lia]|].
                 right. lia.
           ++ rewrite Hid2, Hid, Hn.
              replace (id_bit_number st - id_bit_number st2)
                with ((id_bit_number st - 8 - id_bit_number st2) + 1 * 8) by lia.
              rewrite Z.div_add by lia. lia.
      * destruct Hf as (Hfr & Hid & Hn). split; [done|]. split; [lia|].
        rewrite Hid. rewrite Z.div_small; lia.
    + unfold loop_frame. repeat split; auto; lia.
Qed.

(** The bound of [search_octets] is not what ends the loop: from the
    position 64 every larger bound gives the result of the bound 8. *)
Lemma search_octets_bound (n m : nat) (d : Z) (st : search_st) (w : world D) :
  id_bit_number st = 8 * Z.of_nat m -> (m <= n)%nat -> (m <= 8)%nat ->
  search_octets drv n d st w = search_octets drv m d st w.
Proof.
  revert m st w. induction n as [|n IH]; intros m st w Hp Hm Hm8.
  - by assert (m = 0%nat) as -> by lia.
  - destruct m as [|m].
    + rewrite search_octets_S. simpl. rewrite Hp. reflexivity.
    + rewrite !search_octets_S. destruct (id_bit_number st >? 0); [|done].
      unfold bind.
      pose proof (search_bits_frame 8 d st w ltac:(lia)) as Hf.
      destruct (search_bits drv 8 d st w) as [f w1]. simpl in Hf.
      destruct f as [st1|st1|st1]; [|done|done].
      destruct Hf as (_ & _ & Hn). apply IH; simpl; lia.
Qed.

End SearchFacts.

Arguments search_bits : simpl never.
Arguments search_octets : simpl never.

(** ** One turn of the search loop, and a pass that is cut short *)

Lemma land_1_cases x : Z.land x 0x01 = 0 \/ Z.land x 0x01 = 1.
Proof.
  pose proof (Z.land_ones x 1 ltac:(lia)) as H.
  change (Z.ones 1) with 1 in H. change (2 ^ 1) with 2 in H.
  pose proof (Z.mod_pos_bound x 2). lia.
Qed.

Section PassFacts.

Context {D : Type} (drv : ow_ll_drv_t D).

(** The loop is left through [out] only from a turn in which both reads
    returned 1, and that turn changes nothing. *)
Lemma search_bit_goto_out (d : Z) (st st' : search_st) (w w' : world D) :
  search_bit drv d st w = (GotoOut st', w') ->
  st' = st /\
  exists w1, send_bit drv 1 (Some 0) w = (owOK, Some 1, w1) /\
             send_bit drv 1 (Some 0) w1 = (owOK, Some 1, w').
Proof.
  unfold search_bit, bind.
  pose proof (send_bit_result drv 1 0 w) as H1.
  destruct (send_bit drv 1 (Some 0) w) as [[r1 b] w1].
  destruct H1 as [[-> ->]|[-> Hb]]; simpl; [discriminate|].
  pose proof (send_bit_result drv 1 0 w1) as H2.
  destruct (send_bit drv 1 (Some 0) w1) as [[r2 b_cpl] w2] eqn:E2.
  destruct H2 as [[-> ->]|[-> Hc]]; simpl; [discriminate|].
  destruct Hb as [-> | ->], Hc as [-> | ->]; simpl.
  1-3: unfold ret; repeat case_match; discriminate.
  intros [= <- <-]. split; [done|]. by exists w1.
Qed.

Lemma search_bits_goto_out (j : nat) (d : Z) (st st' : search_st) (w w' : world D) :
  search_bits drv j d st w = (GotoOut st', w') -> silent_reads drv w'.
Proof.
  revert st w. induction j as [|j IH]; intros st w; [discriminate|].
  rewrite search_bits_S. unfold bind.
  destruct (search_bit drv d st w) as [[st1|st1|st1] w1] eqn:Hbit.
  - apply IH.
  - intros [= <- <-]. apply search_bit_goto_out in Hbit as [_ [w0 [H1 H2]]].
    by exists w, w0.
  - discriminate.
Qed.

Lemma search_octets_goto_out (n m : nat) (d : Z) (st st' : search_st) (w w' : world D) :
  id_bit_number st = 8 * Z.of_nat m -> (m <= n)%nat -> (m <= 8)%nat ->
  search_octets drv n d st w = (GotoOut st', w') -> silent_reads drv w'.
Proof.
  revert m st w. induction n as [|n IH]; intros m st w Hp Hm Hm8.
  - assert (m = 0%nat) as -> by lia.
    change (search_octets drv 0 d st)
      with (if id_bit_number st >? 0 then @ret D _ (GotoOut st) else ret (Next st)).
    rewrite Hp. discriminate.
  - rewrite search_octets_S. destruct (Z.gtb_spec (id_bit_number st) 0) as [Hpos|]; [|discriminate].
    unfold bind.
    pose proof (search_bits_frame drv 8 d st w ltac:(lia)) as Hf.
    destruct (search_bits drv 8 d st w) as [[st1|st1|st1] w1] eqn:Hbits; simpl in Hf.
    + destruct Hf as (_ & _ & Hn). destruct m as [|m]; [lia|].
      apply (IH m); simpl; lia.
    + intros [= <- <-]. by apply search_bits_goto_out in Hbits.
    + discriminate.
Qed.

(** C1, as the code has it. In a turn of the search loop at position [p]
    that reads a discrepancy (both reads return 0): below the previous
    discrepancy ([p < d]) the master writes 1 and records [p]; at it
    ([p = d]) it writes 0 and records nothing; above it ([p > d]) it writes
    the bit stored in the ROM buffer by the pass before, the low bit of the
    octet under [id], and records [p] when that bit is 1.  The bit is
    written in one exchange of one octet and shifted into the top of the
    octet under [id].  A recording replaces whatever was pending; positions
    are visited downwards, so the lowest recorded position is the one a
    pass leaves behind. *)
Theorem discrepancy_resolution (d : Z) (st : search_st) (w w1 w2 : world D) :
  send_bit drv 1 (Some 0) w = (owOK, Some 0, w1) ->
  send_bit drv 1 (Some 0) w1 = (owOK, Some 0, w2) ->
  let p := id_bit_number st in
  let cur := st_rom st !!! st_id st in
  let stored := Z.land cur 0x01 in
  exists c nd,
    search_bit drv d st w =
      (Next (mk_st (<[st_id st := u8 (Z.lor (Z.shiftr cur 1) (Z.shiftl c 7))]> (st_rom st))
                   (st_id st) p nd),
       snd (send_bit drv c None w2)) /\
    ll_trace (snd (send_bit drv c None w2)) =
      ll_trace w2 ++ [CallTxRx [if c =? 1 then 0xFF else 0x00]] /\
    (p < d -> c = 1 /\ nd = p) /\
    (p = d -> c = 0 /\ nd = next_disrepancy st) /\
    (p > d -> c = stored /\ nd = if stored =? 1 then p else next_disrepancy st).
Proof.
  intros H1 H2 p cur stored.
  assert (forall c, c = 0 \/ c = 1 ->
            ll_trace (snd (send_bit drv c None w2)) =
              ll_trace w2 ++ [CallTxRx [if c =? 1 then 0xFF else 0x00]]) as Htr.
  { intros c Hc. unfold send_bit. run_calls.
    destruct Hc as [-> | ->]; simpl;
      destruct (ll_tx_rx drv _ (ll_state w2)) as [[ok rx] d']; by destruct ok. }
  assert (forall c nd,
            choose_bit p d cur 0 0 (next_disrepancy st) = (c, nd) ->
            search_bit drv d st w =
              (Next (mk_st (<[st_id st := u8 (Z.lor (Z.shiftr cur 1) (Z.shiftl c 7))]> (st_rom st))
                           (st_id st) p nd),
               snd (send_bit drv c None w2))) as Hrun.
  { intros c nd Hc. unfold search_bit, bind. rewrite H1. simpl. rewrite H2. simpl.
    fold cur p. rewrite Hc. by destruct (send_bit drv c None w2). }
  unfold choose_bit, force_one in Hrun. simpl in Hrun.
  rewrite truthy_land_1 in Hrun.
  assert (Z.testbit cur 0 = (stored =? 1)) as Hst.
  { rewrite <- truthy_land_1. unfold truthy. fold stored.
    destruct (land_1_cases cur) as [Hs|Hs]; fold stored in Hs; by rewrite Hs. }
  rewrite Hst in Hrun.
  destruct (Z.ltb_spec p d) as [Hlt|Hge].
  - exists 1, p. split; [by apply Hrun|]. split; [apply Htr; auto|].
    repeat split; lia.
  - destruct (Z.eqb_spec d p) as [Heq|Hne].
    + exists 0, (next_disrepancy st). rewrite andb_false_r in Hrun.
      split; [by apply Hrun|]. split; [apply Htr; auto|]. repeat split; lia.
    + destruct (land_1_cases cur) as [Hs|Hs]; fold stored in Hs; rewrite Hs in *;
        simpl in Hrun.
      * exists 0, (next_disrepancy st).
        split; [by apply Hrun|]. split; [apply Htr; auto|]. repeat split; lia.
      * exists 1, p.
        split; [by apply Hrun|]. split; [apply Htr; auto|]. repeat split; lia.
Qed.

(** C10. A call that enters with a non-zero discrepancy marker and returns
    [owERRNODEV] has reset the bus, left its loop through [out] at a position
    [id_bit_number > 0], and still writes its results: [rom_id] receives the
    session's ROM buffer and the marker receives [next_disrepancy] as it
    stood at the jump, which is 0 or a position visited in this pass.  The
    jump follows two reads that both returned 1.  The buffer is only partly
    from this pass: the octets past the one under [id], which is octet
    [(64 - id_bit_number) / 8], are the ones the session held before the
    call. *)
Theorem search_abort_copies_rom (ow : ow_t) (cmd : Z) (rom_id : ow_rom_t) (w : world D) :
  disrepancy ow <> 0 ->
  fst (fst (fst (ow_search_with_command_raw drv ow cmd rom_id w))) = owERRNODEV ->
  let w2 := snd (ow_write_byte_ex_raw drv cmd None (snd (ow_reset_raw drv w))) in
  exists st w',
    fst (ow_reset_raw drv w) = owOK /\
    search_octets drv 8 (disrepancy ow) (mk_st (rom ow) 0 64 OW_LAST_DEV) w2
      = (GotoOut st, w') /\
    silent_reads drv w' /\
    0 < id_bit_number st <= 64 /\
    ow_search_with_command_raw drv ow cmd rom_id w
      = (owERRNODEV, mk_ow (st_rom st) (next_disrepancy st), st_rom st, w') /\
    Z.of_nat (st_id st) = (64 - id_bit_number st) / 8 /\
    (forall k : nat, (st_id st < k)%nat -> st_rom st !! k = rom ow !! k) /\
    (next_disrepancy st = 0 \/ id_bit_number st <= next_disrepancy st <= 64).
Proof.
  intros Hd Hres w2. unfold ow_search_with_command_raw in *.
  destruct (Z.eqb_spec (disrepancy ow) 0) as [|_]; [done|].
  unfold bind in *. subst w2.
  destruct (ow_reset_raw drv w) as [res w1] eqn:Hreset. simpl in *.
  destruct res; simpl in *; try discriminate.
  - destruct (ow_write_byte_ex_raw drv cmd None w1) as [x w2]. simpl.
    pose proof (search_octets_frame drv 8 8 (disrepancy ow)
                  (mk_st (rom ow) 0 64 OW_LAST_DEV) w2 eq_refl ltac:(lia) ltac:(lia)) as Hf.
    destruct (search_octets drv 8 (disrepancy ow) _ w2) as [f w3] eqn:Hloop.
    simpl in Hf. destruct f as [st|st|st]; simpl in *; try discriminate.
    + destruct Hf as [_ Hz]. rewrite Hz in Hres. discriminate.
    + destruct Hf as ((_ & _ & Hrom & Hnd) & Hp & Hid). simpl in *.
      exists st, w3. split; [done|]. split; [done|].
      split; [by apply (search_octets_goto_out 8 8) in Hloop|]. split; [lia|].
      split; [| split; [lia | split; [intros k Hk; apply Hrom; lia | ] ] ].
      * unfold ret. destruct (Z.eqb_spec (id_bit_number st) 0); [lia|done].
      * destruct Hnd as [->|Hr]; [by left | right; lia].
  - unfold ow_reset_raw in Hreset. revert Hreset. run_calls.
    destruct (ll_set_baudrate drv 9600 _) as [[] ?]; simpl; [|discriminate].
    destruct (ll_tx_rx drv _ _) as [[[] ?] ?]; simpl; [|discriminate].
    destruct (ll_set_baudrate drv 115200 _) as [[] ?]; simpl; [|discriminate].
    destruct (_ || _); discriminate.
Qed.

End PassFacts.

(** The rule of C1 run on a line that reads low in every slot, at position
    64 below the marker [0xFF]. *)
Lemma discrepancy_resolution_witness :
  let drv := fixed_drv (fun _ => true) true 0x00 in
  let st := mk_st (replicate 8 0) 0 64 0 in
  exists c nd,
    search_bit drv 0xFF st (mk_world tt []) =
      (Next (mk_st (<[0%nat := u8 (Z.lor (Z.shiftr 0 1) (Z.shiftl c 7))]> (replicate 8 0))
                   0 64 nd),
       snd (send_bit drv c None (mk_world tt [CallTxRx [0xFF]; CallTxRx [0xFF]]))) /\
    ll_trace (snd (send_bit drv c None (mk_world tt [CallTxRx [0xFF]; CallTxRx [0xFF]]))) =
      [CallTxRx [0xFF]; CallTxRx [0xFF]] ++ [CallTxRx [if c =? 1 then 0xFF else 0x00]] /\
    (64 < 0xFF -> c = 1 /\ nd = 64) /\
    (64 = 0xFF -> c = 0 /\ nd = 0) /\
    (64 > 0xFF -> c = Z.land 0 0x01 /\ nd = if Z.land 0 0x01 =? 1 then 64 else 0).
Proof.
  intros drv st.
  apply (discrepancy_resolution drv 0xFF st (mk_world tt [])
           (mk_world tt [CallTxRx [0xFF]])
           (mk_world tt [CallTxRx [0xFF]; CallTxRx [0xFF]])); reflexivity.
Defined.

(** C1 as the spec words it fails on the code.  Below the previous
    discrepancy (position 64, marker [0xFF]) with a stored bit 0 the master
    writes 1, not the stored bit, and records the position; at the previous
    discrepancy (position 64, marker 64) it writes 0, not 1; and of the two
    discrepancies 64 and 63 that the first pass over the slaves
    [00], [01] and [03] meets, the lower one is left pending. *)
Lemma discrepancy_resolution_counterexample :
  (search_bit (fixed_drv (fun _ => true) true 0x00) 0xFF
              (mk_st (replicate 8 0x00) 0 64 0) (mk_world tt [])
     = (Next (mk_st [0x80; 0; 0; 0; 0; 0; 0; 0] 0 64 64),
        mk_world tt [CallTxRx [0xFF]; CallTxRx [0xFF]; CallTxRx [0xFF]])
   /\ choose_bit 64 0xFF 0x00 0 0 0 <> spec_choice 64 0xFF (Z.land 0x00 0x01) 0)
  /\
  (search_bit (fixed_drv (fun _ => true) true 0x00) 64
              (mk_st (replicate 8 0xFF) 0 64 0) (mk_world tt [])
     = (Next (mk_st [0x7F; 0xFF; 0xFF; 0xFF; 0xFF; 0xFF; 0xFF; 0xFF] 0 64 0),
        mk_world tt [CallTxRx [0xFF]; CallTxRx [0xFF]; CallTxRx [0x00]])
   /\ choose_bit 64 64 0xFF 0 0 0 <> spec_choice 64 64 (Z.land 0xFF 0x01) 0)
  /\
  (fst (ow_search_raw bus_drv (mk_ow (replicate 8 0) OW_FIRST_DEV) rom_uninit
          (bus_of [[0x00; 0; 0; 0; 0; 0; 0; 0]; [0x01; 0; 0; 0; 0; 0; 0; 0];
                   [0x03; 0; 0; 0; 0; 0; 0; 0]]))
     = (owOK, mk_ow [0x03; 0; 0; 0; 0; 0; 0; 0] 63, [0x03; 0; 0; 0; 0; 0; 0; 0])).
Proof.
  split; [split; [vm_compute; reflexivity | vm_compute; discriminate]|].
  split; [split; [vm_compute; reflexivity | vm_compute; discriminate]|].
  vm_compute. reflexivity.
Qed.

(** C10 on a slave that answers the reset and the first ROM bit and then
    falls silent: the pass is cut at position 63, and the caller's ROM gets
    the buffer with one fresh bit above seven octets and seven bits of the
    old content. *)
Lemma search_abort_copies_rom_witness :
  let ow := mk_ow (replicate 8 0xFF) OW_FIRST_DEV in
  let w := mk_world ([0xE0] ++ replicate 8 0x00 ++ [0x00; 0xFF; 0x00]) [] in
  let w2 := snd (ow_write_byte_ex_raw script_drv OW_CMD_SEARCHROM None
                   (snd (ow_reset_raw script_drv w))) in
  exists st w',
    fst (ow_reset_raw script_drv w) = owOK /\
    search_octets script_drv 8 (disrepancy ow) (mk_st (rom ow) 0 64 OW_LAST_DEV) w2
      = (GotoOut st, w') /\
    silent_reads script_drv w' /\
    0 < id_bit_number st <= 64 /\
    ow_search_with_command_raw script_drv ow OW_CMD_SEARCHROM rom_uninit w
      = (owERRNODEV, mk_ow (st_rom st) (next_disrepancy st), st_rom st, w') /\
    Z.of_nat (st_id st) = (64 - id_bit_number st) / 8 /\
    (forall k : nat, (st_id st < k)%nat -> st_rom st !! k = rom ow !! k) /\
    (next_disrepancy st = 0 \/ id_bit_number st <= next_disrepancy st <= 64).
Proof.
  intros ow w w2.
  apply (search_abort_copies_rom script_drv ow OW_CMD_SEARCHROM rom_uninit w).
  - vm_compute. discriminate.
  - vm_compute. reflexivity.
Defined.

Example search_abort_run :
  fst (ow_search_with_command_raw script_drv (mk_ow (replicate 8 0xFF) OW_FIRST_DEV)
         OW_CMD_SEARCHROM rom_uninit
         (mk_world ([0xE0] ++ replicate 8 0x00 ++ [0x00; 0xFF; 0x00]) []))
  = (owERRNODEV, mk_ow [0x7F; 0xFF; 0xFF; 0xFF; 0xFF; 0xFF; 0xFF; 0xFF] 0,
     [0x7F; 0xFF; 0xFF; 0xFF; 0xFF; 0xFF; 0xFF; 0xFF]).
Proof. vm_compute. reflexivity. Qed.

(** ** Search on an empty bus *)

(** C6, as the code has it. On a bus without slaves the reset samples the
    echo [0xF0], and the first search after a search reset hands the
    reset's [owERRPRESENCE] on to its caller; the session keeps the marker
    [0xFF] and the caller's ROM is not written. *)
Theorem search_empty_bus (ow : ow_t) (rom_id : ow_rom_t)
    (regs : list (list bool)) (ph : bus_phase) (baud : Z) (t : list ll_call) :
  fst (ow_search_raw bus_drv (snd (ow_search_reset_raw ow)) rom_id
         (mk_world (mk_bus [] regs ph baud) t))
  = (owERRPRESENCE, snd (ow_search_reset_raw ow), rom_id).
Proof. reflexivity. Qed.

(** C6 as the spec words it: the result is not [owERRNODEV]. *)
Lemma search_empty_bus_counterexample :
  fst (fst (fst (ow_search_raw bus_drv (snd (ow_search_reset_raw (mk_ow rom_uninit 0)))
                   rom_uninit (bus_of []))))
  <> owERRNODEV.
Proof. vm_compute. discriminate. Qed.

(** ** The batch helpers and [owERRNODEV] *)

Section BatchFacts.

Context {D : Type} (drv : ow_ll_drv_t D).
Context {U : Type} (func : ow_t -> option ow_rom_t -> nat -> U -> M D (owr_t * U)).

(** C7, as the code has it. [ow_search_devices_with_command_raw] turns the
    [owERRNODEV] that ended its loop into [owOK] exactly when its count is
    above zero, and returns it as it is when the count is zero;
    [ow_search_with_command_callback] turns it into [owOK] whatever the
    count, zero included, and so never returns [owERRNODEV]. *)
Theorem batch_nodev_folding (ow : ow_t) (cmd : Z) (w : world D) :
  (forall rom_id_arr rom_len roms_found,
     let '(res, _, _, cnt) :=
       fst (devices_loop drv rom_len cmd owOK (snd (ow_search_reset_raw ow)) rom_id_arr 0 w) in
     fst (fst (fst (fst (ow_search_devices_with_command_raw
                           drv ow cmd rom_id_arr rom_len roms_found w))))
     = match res, cnt with
       | owERRNODEV, S _ => owOK
       | owERRNODEV, O => owERRNODEV
       | _, _ => res
       end)
  /\
  (forall n roms_found arg,
     match fst (callback_loop drv func n cmd owOK (snd (ow_search_reset_raw ow))
                  rom_uninit 0 arg w) with
     | Some (res, ow', i, arg') =>
         exists arg'',
           fst (ow_search_with_command_callback drv func n ow cmd roms_found arg w)
           = Some (match res with owERRNODEV => owOK | _ => res end,
                   ow', match roms_found with Some _ => Some i | None => None end, arg'')
     | None =>
         fst (ow_search_with_command_callback drv func n ow cmd roms_found arg w) = None
     end).
Proof.
  split.
  - intros arr rom_len rf. unfold ow_search_devices_with_command_raw. simpl.
    unfold bind.
    destruct (devices_loop drv rom_len cmd owOK _ arr 0 w) as [[[[res ow'] arr'] cnt] w'].
    simpl. by destruct res, cnt.
  - intros n rf arg. unfold ow_search_with_command_callback. simpl.
    unfold bind, ow_protect, ret.
    destruct (callback_loop drv func n cmd owOK _ rom_uninit 0 arg w) as [r w'].
    simpl. destruct r as [[[[res ow'] i] arg']|]; [|done].
    unfold callback_finish, bind, ow_unprotect, ret.
    destruct (func ow' None i arg' w') as [[r2 arg''] w'']. simpl.
    exists arg''. by destruct res.
Qed.

End BatchFacts.

(** C7 as the spec words it fails for the callback helper: an alarm search
    ([0xEC]) on a bus whose only slave is not in alarm finds nothing, the
    underlying search ends the loop with [owERRNODEV] at count 0, and the
    helper returns [owOK]; the array helper returns [owERRNODEV] there. *)
Lemma batch_nodev_folding_counterexample :
  let visit := fun (_ : ow_t) (_ : option ow_rom_t) (_ : nat) (u : unit) =>
                 @ret bus _ (owOK, u) in
  let ow := mk_ow rom_uninit OW_LAST_DEV in
  let w := bus_of [[0x28; 0xFF; 0x64; 0x1E; 0x3C; 0x2D; 0x5B; 0x9E]] in
  fst (callback_loop bus_drv visit 1 0xEC owOK (snd (ow_search_reset_raw ow)) rom_uninit 0 tt w)
    = Some (owERRNODEV, mk_ow rom_uninit 0, 0%nat, tt)
  /\ fst (ow_search_with_command_callback bus_drv visit 1 ow 0xEC (Some 0%nat) tt w)
    = Some (owOK, mk_ow rom_uninit 0, Some 0%nat, tt)
  /\ fst (ow_search_devices_with_command_raw bus_drv ow 0xEC [rom_uninit] 1 (Some 0%nat) w)
    = (owERRNODEV, mk_ow rom_uninit 0, [rom_uninit], Some 0%nat).
Proof. repeat split; vm_compute; reflexivity. Qed.

(** ** Order of ROMs on the wire *)

Lemma bits_fold (l : list bool) (acc : Z) :
  fold_left (fun acc (b : bool) => 2 * acc + (if b then 1 else 0)) l acc
  = acc * 2 ^ Z.of_nat (length l) + bits_value l.
Proof.
  unfold bits_value. revert acc. induction l as [|b l IH]; intros acc.
  - simpl. lia.
  - cbn [fold_left length]. rewrite (IH (2 * acc + _)), (IH (2 * 0 + _)).
    rewrite Nat2Z.inj_succ, Z.pow_succ_r by lia. lia.
Qed.

Lemma bits_value_app (l1 l2 : list bool) :
  bits_value (l1 ++ l2) = bits_value l1 * 2 ^ Z.of_nat (length l2) + bits_value l2.
Proof.
  unfold bits_value at 1. rewrite fold_left_app. apply bits_fold.
Qed.

Lemma bits_value_cons (b : bool) (l : list bool) :
  bits_value (b :: l) = (if b then 1 else 0) * 2 ^ Z.of_nat (length l) + bits_value l.
Proof. apply (bits_value_app [b] l). Qed.

Lemma bits_value_bound (l : list bool) : 0 <= bits_value l < 2 ^ Z.of_nat (length l).
Proof.
  induction l as [|b l IH]; [by compute|].
  rewrite bits_value_cons. cbn [length]. rewrite Nat2Z.inj_succ, Z.pow_succ_r by lia.
  destruct b; lia.
Qed.

(** Two bit strings of one length that agree up to a position where the
    first has 0 and the second 1. *)
Lemma bits_value_lt (i : nat) (l r : list bool) :
  length l = length r -> take i l = take i r ->
  l !! i = Some false -> r !! i = Some true ->
  bits_value l < bits_value r.
Proof.
  intros Hlen Htk Hl Hr.
  rewrite <- (take_drop_middle l i false Hl), <- (take_drop_middle r i true Hr).
  rewrite !bits_value_app, !bits_value_cons, Htk.
  assert (length (drop (S i) l) = length (drop (S i) r)) as Hd
    by (rewrite !length_drop; lia).
  cbn [length]. rewrite Hd.
  pose proof (bits_value_bound (drop (S i) l)) as Hb. rewrite Hd in Hb.
  pose proof (bits_value_bound (drop (S i) r)).
  assert (0 < 2 ^ Z.of_nat (S (length (drop (S i) r)))) by (apply Z.pow_pos_nonneg; lia).
  nia.
Qed.

(** Of two bit strings of one length the smaller has 0 where they first
    differ. *)
Lemma bits_first_diff (x r : list bool) :
  length x = length r -> bits_value x < bits_value r ->
  exists k : nat, take k x = take k r /\ x !! k = Some false /\ r !! k = Some true.
Proof.
  revert r. induction x as [|h x IH]; intros [|hr r] Hlen Hlt; simpl in Hlen;
    try discriminate.
  injection Hlen as Hlen. rewrite !bits_value_cons, Hlen in Hlt.
  pose proof (bits_value_bound x) as Hx. rewrite Hlen in Hx.
  pose proof (bits_value_bound r) as Hr.
  destruct h, hr.
  - destruct (IH r Hlen ltac:(lia)) as (k & Htk & Hxk & Hrk).
    exists (S k). simpl. by rewrite Htk.
  - lia.
  - by exists 0%nat.
  - destruct (IH r Hlen ltac:(lia)) as (k & Htk & Hxk & Hrk).
    exists (S k). simpl. by rewrite Htk.
Qed.

Lemma bits_value_inj (x r : list bool) :
  length x = length r -> bits_value x = bits_value r -> x = r.
Proof.
  revert r. induction x as [|h x IH]; intros [|hr r] Hlen Heq; simpl in Hlen;
    try discriminate; [done|].
  injection Hlen as Hlen. rewrite !bits_value_cons, Hlen in Heq.
  pose proof (bits_value_bound x) as Hx. rewrite Hlen in Hx.
  pose proof (bits_value_bound r) as Hr.
  destruct h, hr; try lia; f_equal; apply IH; lia.
Qed.

Lemma bits_value_cons_le (h c : bool) (x cs : list bool) :
  length x = length cs ->
  (h = c /\ bits_value x <= bits_value cs) \/ (h = false /\ c = true) ->
  bits_value (h :: x) <= bits_value (c :: cs).
Proof.
  intros Hlen H. rewrite !bits_value_cons, Hlen.
  pose proof (bits_value_bound x) as Hx. rewrite Hlen in Hx.
  pose proof (bits_value_bound cs) as Hc.
  destruct H as [[-> Hle] | [-> ->]]; [destruct c|]; lia.
Qed.

(** ** The walk down the tree of ROM bits *)

Lemma regs_ok_cons n A reg :
  regs_ok (S n) A -> reg ∈ A -> exists h t, reg = h :: t /\ length t = n /\ reg_bit reg = h.
Proof.
  intros [_ Hall] Hin. rewrite Forall_forall in Hall. specialize (Hall reg Hin).
  destruct reg as [|h t]; [discriminate|]. exists h, t. simpl in Hall.
  split; [done|]. split; [lia|done].
Qed.

Lemma forallb_reg_bit (f : list bool -> bool) (A : list (list bool)) :
  forallb f A = true <-> forall reg, reg ∈ A -> f reg = true.
Proof.
  rewrite forallb_forall. split; intros H reg Hin; apply H; by apply list_elem_of_In.
Qed.

Lemma forallb_reg_bit_false (f : list bool -> bool) (A : list (list bool)) :
  forallb f A = false -> exists reg, reg ∈ A /\ f reg = false.
Proof.
  induction A as [|x A IH]; simpl; [discriminate|].
  destruct (f x) eqn:Hx; simpl.
  - intros H. destruct (IH H) as (reg & Hin & Hf). exists reg. split; [by right|done].
  - intros _. exists x. split; [by left|done].
Qed.

Lemma elem_of_select c s A :
  s ∈ select c A <-> exists reg, reg ∈ A /\ reg_bit reg = c /\ s = drop 1 reg.
Proof.
  unfold select. rewrite list_elem_of_fmap. split.
  - intros (reg & -> & Hin). apply list_elem_of_filter in Hin as [Hb Hin]. by exists reg.
  - intros (reg & Hin & Hb & ->). exists reg. split; [done|].
    by apply list_elem_of_filter.
Qed.

Lemma select_cons n c s A : regs_ok (S n) A -> s ∈ select c A <-> c :: s ∈ A.
Proof.
  intros Hok. rewrite elem_of_select. split.
  - intros (reg & Hin & Hb & ->).
    destruct (regs_ok_cons n A reg Hok Hin) as (h & t & -> & _ & Hh).
    simpl. rewrite drop_0. congruence.
  - intros Hin. exists (c :: s). simpl. by rewrite drop_0.
Qed.

Lemma select_regs_ok n c A reg :
  regs_ok (S n) A -> reg ∈ A -> reg_bit reg = c -> regs_ok n (select c A).
Proof.
  intros Hok Hin Hb. split.
  - intros Hnil. assert (drop 1 reg ∈ select c A) as Hs by (apply elem_of_select; eauto).
    rewrite Hnil in Hs. by apply elem_of_nil in Hs.
  - apply Forall_forall. intros s Hs. apply elem_of_select in Hs as (reg' & Hin' & _ & ->).
    destruct (regs_ok_cons n A reg' Hok Hin') as (h & t & -> & Hlen & _).
    simpl. by rewrite drop_0.
Qed.

(** What the choice made at one position guarantees. *)
Lemma choose_facts n p d stored nd A :
  regs_ok (S n) A ->
  let b := forallb reg_bit A in
  let b_cpl := forallb (fun reg => negb (reg_bit reg)) A in
  let '(c, nd1) := choose p d stored b b_cpl nd in
  (b && b_cpl = false) /\
  (exists reg, reg ∈ A /\ reg_bit reg = c) /\
  (nd1 = nd \/ (nd1 = p /\ c = true /\ exists s, s ∈ A /\ reg_bit s = false)) /\
  (p = d ->
     (exists x, x ∈ A /\ reg_bit x = true) -> (exists s, s ∈ A /\ reg_bit s = false) ->
     c = false /\ nd1 = nd) /\
  (d < p -> forall x, x ∈ A -> reg_bit x = stored -> c = stored).
Proof.
  intros Hok b b_cpl.
  assert (exists reg0, reg0 ∈ A) as [reg0 Hreg0].
  { destruct Hok as [Hne _]. destruct A as [|x A]; [done|]. exists x. by left. }
  unfold choose.
  destruct b eqn:Hb; subst b; destruct b_cpl eqn:Hc; subst b_cpl; simpl.
  - rewrite forallb_reg_bit in Hb. rewrite forallb_reg_bit in Hc.
    specialize (Hb _ Hreg0). specialize (Hc _ Hreg0). rewrite Hb in Hc. discriminate.
  - rewrite forallb_reg_bit in Hb.
    split; [done|]. split; [exists reg0; auto|]. split; [auto|]. split.
    + intros _ _ (s & Hs & Hsb). rewrite (Hb _ Hs) in Hsb. discriminate.
    + intros _ x Hx <-. symmetry. auto.
  - rewrite forallb_reg_bit in Hc.
    assert (forall reg, reg ∈ A -> reg_bit reg = false) as Hf.
    { intros reg Hin. specialize (Hc _ Hin). by apply negb_true_iff in Hc. }
    split; [done|]. split; [exists reg0; auto|]. split; [auto|]. split.
    + intros _ (x & Hx & Hxb) _. rewrite (Hf _ Hx) in Hxb. discriminate.
    + intros _ x Hx <-. symmetry. auto.
  - apply forallb_reg_bit_false in Hb as (s & Hs & Hsb).
    apply forallb_reg_bit_false in Hc as (x & Hx & Hxb). apply negb_false_iff in Hxb.
    destruct (Z.ltb_spec p d) as [Hlt|Hge]; simpl.
    + split; [done|]. split; [by exists x|]. split; [right; eauto|].
      split; [lia|]. intros ?; lia.
    + destruct (Z.eqb_spec d p) as [Heq|Hne]; simpl.
      * rewrite andb_false_r. split; [done|]. split; [by exists s|]. split; [auto|].
        split; [done|]. intros ?; lia.
      * rewrite andb_true_r. destruct stored.
        -- split; [done|]. split; [by exists x|]. split; [right; eauto|].
           split; [intros; lia|done].
        -- split; [done|]. split; [by exists s|]. split; [auto|].
           split; [intros; lia|done].
Qed.

Lemma walk_S d n p A r nd :
  walk d (S n) p A r nd =
    let '(c, nd1) :=
      choose p d (default false (head r)) (forallb reg_bit A)
             (forallb (fun reg => negb (reg_bit reg)) A) nd in
    let '(cs, A', nd') := walk d n (p - 1) (select c A) (tail r) nd1 in
    (c :: cs, A', nd').
Proof. reflexivity. Qed.

(** The walk ends on the ROM of one of the slaves; the discrepancy it
    leaves pending is a position where it went towards 1 while a slave with
    the same bits before has 0; and when it started from the ROM [r] of the
    pass before, with the marker [d] at a position where [r] went towards 1
    past such a slave, it follows [r] down to [d] and goes towards 0
    there. *)
Lemma walk_spec d n : forall p A r nd,
  regs_ok n A ->
  let '(cs, A', nd') := walk d n p A r nd in
  cs ∈ A /\
  (nd' = nd \/
   exists (i : nat) s, (i < n)%nat /\ nd' = p - Z.of_nat i /\ cs !! i = Some true /\
     s ∈ A /\ take i s = take i cs /\ s !! i = Some false) /\
  (forall (i : nat) s, (i < n)%nat -> d = p - Z.of_nat i ->
     r ∈ A -> r !! i = Some true ->
     s ∈ A -> take i s = take i r -> s !! i = Some false ->
     take i cs = take i r /\ cs !! i = Some false).
Proof.
  induction n as [|n IH]; intros p A r nd Hok.
  - simpl. split; [|split; [by left | intros; lia]].
    destruct Hok as [Hne Hall]. destruct A as [|x A]; [done|].
    apply Forall_cons in Hall as [Hx _]. destruct x; [by left | discriminate].
  - rewrite walk_S.
    pose proof (choose_facts n p d (default false (head r)) nd A Hok) as Hch.
    simpl in Hch.
    destruct (choose p d _ _ _ nd) as [c nd1].
    destruct Hch as (_ & (reg & Hreg & Hregb) & Hnd1 & Heq & Hgt).
    pose proof (select_regs_ok n c A reg Hok Hreg Hregb) as Hok1.
    specialize (IH (p - 1) (select c A) (tail r) nd1 Hok1).
    destruct (walk d n (p - 1) (select c A) (tail r) nd1) as [[cs A'] nd'].
    destruct IH as (Hin & Hnd' & Hord).
    split; [by apply (select_cons n)|]. split.
    + destruct Hnd' as [-> | (i & s & Hi & -> & Hcs & Hs & Htk & Hsi)].
      * destruct Hnd1 as [-> | (-> & -> & s & Hs & Hsb)]; [by left|].
        right. exists 0%nat, s.
        destruct (regs_ok_cons n A s Hok Hs) as (h & t & -> & _ & Hh).
        rewrite Hh in Hsb. subst h. repeat split; try done; lia.
      * right. exists (S i), (c :: s).
        repeat split; [lia | lia | done | by apply (select_cons n) | | done].
        simpl. by rewrite Htk.
    + intros i s Hi Hd Hr Hri Hs Htk Hsi.
      destruct (regs_ok_cons n A r Hok Hr) as (hr & tr & -> & _ & Hhr).
      destruct (regs_ok_cons n A s Hok Hs) as (hs & ts & -> & _ & Hhs).
      simpl in *. destruct i as [|i]; simpl in *.
      * injection Hri as ->. injection Hsi as ->.
        destruct Heq as [-> _]; [lia | eauto | eauto |]. done.
      * injection Htk as -> Htk.
        assert (c = hr) as -> by (apply (Hgt ltac:(lia) (hr :: tr)); done).
        destruct (Hord i ts) as [Ht Hc]; try done; try lia.
        -- by apply (select_cons n).
        -- by apply (select_cons n).
        -- split; [by rewrite Ht | done].
Qed.

Lemma choose_marks n p d stored nd A :
  regs_ok (S n) A ->
  let b := forallb reg_bit A in
  let b_cpl := forallb (fun reg => negb (reg_bit reg)) A in
  let '(c, nd1) := choose p d stored b b_cpl nd in
  ((nd1 = p /\ c = true /\ exists s, s ∈ A /\ reg_bit s = false) \/
   (nd1 = nd /\ ~ (c = true /\ exists s, s ∈ A /\ reg_bit s = false))) /\
  (p < d -> forall x, x ∈ A -> reg_bit x = c \/ c = true).
Proof.
  intros Hok b b_cpl.
  assert (exists reg0, reg0 ∈ A) as [reg0 Hreg0].
  { destruct Hok as [Hne _]. destruct A as [|x A]; [done|]. exists x. by left. }
  unfold choose.
  destruct b eqn:Hb; subst b; destruct b_cpl eqn:Hc; subst b_cpl; simpl.
  - rewrite forallb_reg_bit in Hb. rewrite forallb_reg_bit in Hc.
    specialize (Hb _ Hreg0). specialize (Hc _ Hreg0). rewrite Hb in Hc. discriminate.
  - rewrite forallb_reg_bit in Hb. split; [|auto].
    right. split; [done|]. intros (_ & s & Hs & Hsb). rewrite (Hb _ Hs) in Hsb. discriminate.
  - rewrite forallb_reg_bit in Hc. split.
    + right. split; [done|]. by intros [? _].
    + intros _ x Hx. left. specialize (Hc _ Hx). by apply negb_true_iff in Hc.
  - apply forallb_reg_bit_false in Hb as (s & Hs & Hsb).
    destruct (Z.ltb_spec p d) as [Hlt|Hge]; simpl.
    + split; [left; eauto | auto].
    + destruct (stored && negb (d =? p)); (split; [|intros; lia]).
      * left; eauto.
      * right. split; [done|]. by intros [? _].
Qed.

Lemma walk_step d n p A r nd :
  regs_ok (S n) A ->
  exists c nd1 cs A' nd',
    walk d (S n) p A r nd = (c :: cs, A', nd') /\
    walk d n (p - 1) (select c A) (tail r) nd1 = (cs, A', nd') /\
    choose p d (default false (head r)) (forallb reg_bit A)
           (forallb (fun reg => negb (reg_bit reg)) A) nd = (c, nd1) /\
    regs_ok n (select c A).
Proof.
  intros Hok. rewrite walk_S.
  pose proof (choose_facts n p d (default false (head r)) nd A Hok) as Hch.
  cbv zeta in Hch.
  destruct (choose p d _ _ _ nd) as [c nd1] eqn:Hc.
  destruct Hch as (_ & (reg & Hreg & Hregb) & _).
  destruct (walk d n (p - 1) (select c A) (tail r) nd1) as [[cs A'] nd'] eqn:Hw.
  exists c, nd1, cs, A', nd'.
  split; [done|]. split; [done|]. split; [done|].
  by apply (select_regs_ok n c A reg).
Qed.

Lemma branch_0 n A c cs :
  regs_ok (S n) A ->
  branch A (c :: cs) 0 <-> c = true /\ exists s, s ∈ A /\ reg_bit s = false.
Proof.
  intros Hok. unfold branch. split.
  - intros ([= ->] & s & Hs & _ & Hs0). split; [done|]. exists s. split; [done|].
    destruct (regs_ok_cons n A s Hok Hs) as (h & t & -> & _ & ->). by injection Hs0.
  - intros (-> & s & Hs & Hsb). split; [done|]. exists s.
    destruct (regs_ok_cons n A s Hok Hs) as (h & t & -> & _ & Hh).
    rewrite Hh in Hsb. by subst h.
Qed.

Lemma branch_S n A c cs k :
  regs_ok (S n) A -> branch A (c :: cs) (S k) <-> branch (select c A) cs k.
Proof.
  intros Hok. unfold branch. split.
  - intros (Hc & s & Hs & Htk & Hsk). split; [done|].
    destruct (regs_ok_cons n A s Hok Hs) as (h & t & -> & _ & _).
    injection Htk as -> Htk. exists t. by rewrite (select_cons n).
  - intros (Hc & s & Hs & Htk & Hsk). split; [done|].
    exists (c :: s). rewrite <- (select_cons n) by done.
    split; [done|]. split; [|done]. simpl. by rewrite Htk.
Qed.

(** The discrepancy a walk leaves pending is its last branch. *)
Lemma walk_marker d n : forall p A r nd,
  regs_ok n A ->
  let '(cs, A', nd') := walk d n p A r nd in
  (nd' = nd /\ forall k, ~ branch A cs k) \/
  (exists i : nat, (i < n)%nat /\ nd' = p - Z.of_nat i /\ branch A cs i /\
     forall k, (i < k)%nat -> ~ branch A cs k).
Proof.
  induction n as [|n IH]; intros p A r nd Hok.
  - simpl. left. split; [done|]. by intros k [? _].
  - destruct (walk_step d n p A r nd Hok) as (c & nd1 & cs & A' & nd' & -> & Hw & Hc & Hok1).
    pose proof (choose_marks n p d (default false (head r)) nd A Hok) as Hm.
    cbv zeta in Hm. rewrite Hc in Hm. destruct Hm as [Hm _].
    specialize (IH (p - 1) (select c A) (tail r) nd1 Hok1). rewrite Hw in IH.
    destruct IH as [[-> Hnone] | (i & Hi & -> & Hbr & Hlast)].
    + destruct Hm as [(-> & Hb0) | (-> & Hb0)].
      * right. exists 0%nat. split; [lia|]. split; [lia|].
        split; [by apply (branch_0 n)|].
        intros [|k] Hk; [lia|]. rewrite (branch_S n) by done. apply Hnone.
      * left. split; [done|]. intros [|k].
        -- by rewrite (branch_0 n).
        -- rewrite (branch_S n) by done. apply Hnone.
    + right. exists (S i). split; [lia|]. split; [lia|].
      split; [by apply (branch_S n)|].
      intros [|k] Hk; [lia|]. rewrite (branch_S n) by done. apply Hlast. lia.
Qed.

Lemma walk_length d n p A r nd :
  regs_ok n A -> length (fst (fst (walk d n p A r nd))) = n.
Proof.
  intros Hok. pose proof (walk_spec d n p A r nd Hok) as Hw.
  destruct (walk d n p A r nd) as [[cs A'] nd']. destruct Hw as [Hin _].
  destruct Hok as [_ Hall]. rewrite Forall_forall in Hall. by apply Hall.
Qed.

(** Below the marker the walk goes towards 1 wherever it can: it ends on
    the greatest ROM. *)
Lemma walk_max d n : forall p A r nd,
  regs_ok n A -> p < d ->
  forall x, x ∈ A -> bits_value x <= bits_value (fst (fst (walk d n p A r nd))).
Proof.
  induction n as [|n IH]; intros p A r nd Hok Hp x Hx.
  - destruct Hok as [_ Hall]. rewrite Forall_forall in Hall. specialize (Hall x Hx).
    destruct x; [done | discriminate].
  - destruct (walk_step d n p A r nd Hok) as (c & nd1 & cs & A' & nd' & Hw & Hw1 & Hc & Hok1).
    pose proof (choose_marks n p d (default false (head r)) nd A Hok) as Hm.
    cbv zeta in Hm. rewrite Hc in Hm. destruct Hm as [_ Hm].
    pose proof (walk_length d n (p - 1) (select c A) (tail r) nd1 Hok1) as Hlen.
    specialize (IH (p - 1) (select c A) (tail r) nd1 Hok1 ltac:(lia)).
    rewrite Hw. rewrite Hw1 in IH, Hlen. simpl in *.
    destruct (regs_ok_cons n A x Hok Hx) as (h & t & -> & Ht & Hh).
    apply bits_value_cons_le; [lia|].
    destruct (Hm Hp _ Hx) as [Hhc | ->].
    + left. split; [congruence|]. apply IH. apply (select_cons n); congruence.
    + destruct h; [left | by right].
      split; [done|]. apply IH. by apply (select_cons n).
Qed.

(** From the ROM [r] of the pass before, with the marker on the last
    branch of [r], the walk ends on the greatest ROM below [r]. *)
Lemma walk_pred d n : forall p A r nd (i : nat),
  regs_ok n A -> (i < n)%nat -> d = p - Z.of_nat i ->
  r ∈ A -> branch A r i -> (forall k, (i < k)%nat -> ~ branch A r k) ->
  forall x, x ∈ A -> bits_value x < bits_value r ->
    bits_value x <= bits_value (fst (fst (walk d n p A r nd))).
Proof.
  induction n as [|n IH]; intros p A r nd i Hok Hi Hd Hr Hbr Hlast x Hx Hlt; [lia|].
  destruct (walk_step d n p A r nd Hok) as (c & nd1 & cs & A' & nd' & Hw & Hw1 & Hc & Hok1).
  pose proof (choose_facts n p d (default false (head r)) nd A Hok) as Hch.
  cbv zeta in Hch. rewrite Hc in Hch. destruct Hch as (_ & _ & _ & Heq & Hgt).
  pose proof (walk_length d n (p - 1) (select c A) (tail r) nd1 Hok1) as Hlen.
  rewrite Hw. rewrite Hw1 in Hlen. simpl in Hlen. simpl fst.
  destruct (regs_ok_cons n A x Hok Hx) as (h & t & -> & Ht & Hh).
  destruct (regs_ok_cons n A r Hok Hr) as (hr & tr & -> & Htr & Hhr).
  cbn [tail] in Hw1.
  apply bits_value_cons_le; [lia|].
  destruct i as [|i].
  - apply (branch_0 n) in Hbr as [-> (s & Hs & Hsb)]; [|done].
    destruct Heq as [-> _]; [lia | eauto | eauto |].
    destruct h.
    + exfalso. destruct (bits_first_diff (true :: t) (true :: tr)) as (k & Htk & Hxk & Hrk);
        [simpl; lia | done |].
      destruct k as [|k]; [done|]. apply (Hlast (S k)); [lia|].
      split; [done|]. by exists (true :: t).
    + left. split; [done|].
      pose proof (walk_max d n (p - 1) (select false A) tr nd1 Hok1
                    ltac:(lia) t ltac:(by apply (select_cons n))) as Hmax.
      by rewrite Hw1 in Hmax.
  - assert (c = hr) as -> by (apply (Hgt ltac:(lia) (hr :: tr)); done).
    destruct h, hr.
    + left. split; [done|].
      specialize (IH (p - 1) (select true A) tr nd1 i Hok1 ltac:(lia) ltac:(lia)).
      rewrite Hw1 in IH. apply IH.
      * by apply (select_cons n).
      * by apply (branch_S n).
      * intros k Hk Hb. apply (Hlast (S k)); [lia|]. by apply (branch_S n).
      * by apply (select_cons n).
      * rewrite !bits_value_cons in Hlt. replace (length t) with (length tr) in Hlt; lia.
    + exfalso. rewrite !bits_value_cons in Hlt.
      pose proof (bits_value_bound t). pose proof (bits_value_bound tr).
      replace (length t) with (length tr) in *; lia.
    + by right.
    + left. split; [done|].
      specialize (IH (p - 1) (select false A) tr nd1 i Hok1 ltac:(lia) ltac:(lia)).
      rewrite Hw1 in IH. apply IH.
      * by apply (select_cons n).
      * by apply (branch_S n).
      * intros k Hk Hb. apply (Hlast (S k)); [lia|]. by apply (branch_S n).
      * by apply (select_cons n).
      * rewrite !bits_value_cons in Hlt. replace (length t) with (length tr) in Hlt; lia.
Qed.

(** ** The slaves on the bus, slot by slot *)

Lemma existsb_negb {X} (f : X -> bool) (l : list X) :
  existsb (fun x => negb (f x)) l = negb (forallb f l).
Proof.
  induction l as [|x l IH]; [done|]. simpl. rewrite IH. by destruct (f x).
Qed.

Lemma existsb_forallb_negb {X} (f : X -> bool) (l : list X) :
  existsb f l = negb (forallb (fun x => negb (f x)) l).
Proof.
  induction l as [|x l IH]; [done|]. simpl. rewrite IH. by destruct (f x).
Qed.

Lemma send_bit_bus_bit devs A t v :
  send_bit bus_drv 1 (Some v) (mk_world (mk_bus devs A (BusSearch SlotBit) 115200) t)
  = (owOK, Some (Z.b2z (forallb reg_bit A)),
     mk_world (mk_bus devs A (BusSearch SlotCpl) 115200) (t ++ [CallTxRx [0xFF]])).
Proof.
  unfold send_bit. run_calls. unfold bus_tx_rx, bus_exchange, bus_slot. simpl.
  rewrite existsb_negb. by destruct (forallb reg_bit A).
Qed.

Lemma send_bit_bus_cpl devs A t v :
  send_bit bus_drv 1 (Some v) (mk_world (mk_bus devs A (BusSearch SlotCpl) 115200) t)
  = (owOK, Some (Z.b2z (forallb (fun reg => negb (reg_bit reg)) A)),
     mk_world (mk_bus devs A (BusSearch SlotDir) 115200) (t ++ [CallTxRx [0xFF]])).
Proof.
  unfold send_bit. run_calls. unfold bus_tx_rx, bus_exchange, bus_slot. simpl.
  rewrite existsb_forallb_negb. by destruct (forallb _ A).
Qed.

Lemma send_bit_bus_dir devs A t (c : bool) :
  send_bit bus_drv (Z.b2z c) None (mk_world (mk_bus devs A (BusSearch SlotDir) 115200) t)
  = (owOK, None,
     mk_world (mk_bus devs (select c A)
                 (if forallb (fun reg => bool_decide (reg = [])) (select c A)
                  then BusIdle else BusSearch SlotBit) 115200)
              (t ++ [CallTxRx [if c then 0xFF else 0x00]])).
Proof.
  unfold send_bit. run_calls. unfold bus_tx_rx, bus_exchange, bus_slot. simpl.
  by destruct c.
Qed.

Lemma regs_exhausted n A :
  regs_ok n A -> forallb (fun reg => bool_decide (reg = [])) A = (Z.of_nat n =? 0).
Proof.
  intros [Hne Hall]. destruct n as [|n].
  - simpl. apply forallb_forall. intros reg Hin%list_elem_of_In.
    rewrite Forall_forall in Hall. specialize (Hall reg Hin).
    destruct reg; [done | discriminate].
  - destruct A as [|reg A]; [done|]. apply Forall_cons in Hall as [Hreg _].
    destruct reg; [discriminate|]. done.
Qed.

Lemma choose_bit_choose p d cur (b b_cpl : bool) nd :
  choose_bit p d cur (Z.b2z b) (Z.b2z b_cpl) nd =
    let (c, nd') := choose p d (Z.testbit cur 0) b b_cpl nd in (Z.b2z c, nd').
Proof.
  unfold choose_bit, choose, force_one. rewrite truthy_land_1.
  destruct b, b_cpl; simpl; try done.
  by destruct (_ || _).
Qed.

(** A turn of the loop put together from its three exchanges. *)
Lemma search_bit_run {D} (drv : ow_ll_drv_t D) d st (w w1 w2 w3 : world D)
    b b_cpl c nd x :
  send_bit drv 1 (Some 0) w = (owOK, Some b, w1) ->
  send_bit drv 1 (Some 0) w1 = (owOK, Some b_cpl, w2) ->
  truthy b && truthy b_cpl = false ->
  choose_bit (id_bit_number st) d (st_rom st !!! st_id st) b b_cpl (next_disrepancy st)
    = (c, nd) ->
  send_bit drv c None w2 = (x, w3) ->
  search_bit drv d st w =
    (Next (mk_st (<[st_id st := u8 (Z.lor (Z.shiftr (st_rom st !!! st_id st) 1)
                                          (Z.shiftl c 7))]> (st_rom st))
                 (st_id st) (id_bit_number st) nd), w3).
Proof.
  intros H1 H2 Hn Hc H3. unfold search_bit, bind.
  rewrite H1. simpl. rewrite H2. simpl. rewrite Hn, Hc, H3. reflexivity.
Qed.

(** One turn of the search loop against the bus. *)
Lemma search_bit_bus devs d st A t n :
  id_bit_number st = Z.of_nat (S n) -> regs_ok (S n) A ->
  let cur := st_rom st !!! st_id st in
  let '(c, nd) :=
    choose (id_bit_number st) d (Z.testbit cur 0) (forallb reg_bit A)
           (forallb (fun reg => negb (reg_bit reg)) A) (next_disrepancy st) in
  regs_ok n (select c A) /\
  exists t',
    search_bit bus_drv d st (mk_world (bus_at devs (id_bit_number st) A) t) =
      (Next (mk_st (<[st_id st := u8 (Z.lor (Z.shiftr cur 1) (Z.shiftl (Z.b2z c) 7))]>
                      (st_rom st))
                   (st_id st) (id_bit_number st) nd),
       mk_world (bus_at devs (id_bit_number st - 1) (select c A)) t').
Proof.
  intros Hp Hok cur.
  pose proof (choose_facts n (id_bit_number st) d (Z.testbit cur 0)
                (next_disrepancy st) A Hok) as Hch. cbv zeta in Hch.
  destruct (choose _ d _ _ _ _) as [c nd] eqn:Hc.
  destruct Hch as (Hnab & (reg & Hreg & Hregb) & _).
  pose proof (select_regs_ok n c A reg Hok Hreg Hregb) as Hok1.
  split; [done|]. eexists.
  unfold bus_at at 1.
  destruct (Z.eqb_spec (id_bit_number st) 0) as [|_]; [lia|].
  eapply search_bit_run.
  - apply send_bit_bus_bit.
  - apply send_bit_bus_cpl.
  - rewrite <- Hnab. by destruct (forallb reg_bit A), (forallb _ A).
  - fold cur. by rewrite choose_bit_choose, Hc.
  - rewrite send_bit_bus_dir. unfold bus_at.
    rewrite (regs_exhausted n _ Hok1).
    replace (id_bit_number st - 1 =? 0) with (Z.of_nat n =? 0) by (f_equal; lia).
    reflexivity.
Qed.

(** ** The ROM buffer, octet by octet *)

Lemma octet_shift_testbit cur c (i : nat) :
  0 <= cur < 256 -> (i < 8)%nat ->
  Z.testbit (octet_shift cur c) (Z.of_nat i) =
    if (i =? 7)%nat then c else Z.testbit cur (Z.of_nat (S i)).
Proof.
  intros Hcur Hi. unfold octet_shift.
  rewrite u8_testbit, Z.lor_spec, Z.shiftr_spec by lia.
  replace (Z.of_nat i <? 8) with true by (symmetry; apply Z.ltb_lt; lia).
  rewrite andb_true_r.
  replace (Z.of_nat i + 1) with (Z.of_nat (S i)) by lia.
  destruct (Nat.eqb_spec i 7) as [->|Hne].
  - rewrite (octet_testbit_high cur) by (done || lia). by destruct c.
  - rewrite Z.shiftl_spec_low by lia. apply orb_false_r.
Qed.

Lemma octet_bits_length x : length (octet_bits x) = 8%nat.
Proof. reflexivity. Qed.

Lemma octet_bits_shift cur c :
  0 <= cur < 256 -> octet_bits (octet_shift cur c) = tail (octet_bits cur) ++ [c].
Proof.
  intros Hcur. unfold octet_bits. cbn [map seq tail app].
  by rewrite !octet_shift_testbit by (done || lia).
Qed.

Section BusLoops.

Context (devs : list ow_rom_t) (d : Z).

(** The inner loop against the bus: [j] turns, all within one octet. *)
Lemma search_bits_bus (j : nat) : forall st A t n,
  (j <= 8)%nat ->
  id_bit_number st = Z.of_nat (j + n) -> (j + n <= 64)%nat ->
  regs_ok (j + n) A ->
  let cur := st_rom st !!! st_id st in
  0 <= cur < 256 -> (st_id st < length (st_rom st))%nat ->
  let '(cs, A', nd') :=
    walk d j (id_bit_number st) A (take j (octet_bits cur)) (next_disrepancy st) in
  regs_ok n A' /\ length cs = j /\
  exists cur' t',
    0 <= cur' < 256 /\
    octet_bits cur' = drop j (octet_bits cur) ++ cs /\
    search_bits bus_drv j d st (mk_world (bus_at devs (id_bit_number st) A) t) =
      (Next (mk_st (<[st_id st := cur']> (st_rom st)) (st_id st)
                   (id_bit_number st - Z.of_nat j) nd'),
       mk_world (bus_at devs (id_bit_number st - Z.of_nat j) A') t').
Proof.
  induction j as [|j IH]; intros st A t n Hj Hp Hp64 Hok cur Hcur Hid.
  - cbn [walk]. split; [done|]. split; [done|]. exists cur, t.
    split; [done|]. split; [by rewrite drop_0, app_nil_r|].
    rewrite list_insert_id by (by apply list_lookup_lookup_total_lt).
    rewrite Z.sub_0_r. by destruct st.
  - change (take (S j) (octet_bits cur))
      with (Z.testbit cur 0 :: take j (tail (octet_bits cur))).
    rewrite walk_S.
    change (default false (head (Z.testbit cur 0 :: take j (tail (octet_bits cur)))))
      with (Z.testbit cur 0).
    change (tail (Z.testbit cur 0 :: take j (tail (octet_bits cur))))
      with (take j (tail (octet_bits cur))).
    pose proof (search_bit_bus devs d st A t (j + n) Hp Hok) as Hturn.
    cbv zeta in Hturn. fold cur in Hturn.
    destruct (choose (id_bit_number st) d (Z.testbit cur 0) _ _ _) as [c nd1].
    destruct Hturn as (Hok1 & t1 & Hrun).
    set (st1 := next_bit (mk_st (<[st_id st := octet_shift cur c]> (st_rom st))
                                (st_id st) (id_bit_number st) nd1)).
    assert (id_bit_number st1 = id_bit_number st - 1) as Hp1.
    { unfold st1. simpl. unfold u8. change 0xFF with (Z.ones 8).
      rewrite Z.land_ones, Z.mod_small; lia. }
    assert (st_rom st1 !!! st_id st1 = octet_shift cur c) as Hcur1.
    { unfold st1. simpl. by apply list_lookup_total_insert_eq. }
    specialize (IH st1 (select c A) t1 n ltac:(lia) ltac:(lia) ltac:(lia) Hok1).
    cbv zeta in IH. rewrite Hcur1, Hp1 in IH.
    specialize (IH (u8_range _)
                  ltac:(unfold st1; simpl; by rewrite length_insert)).
    rewrite octet_bits_shift in IH by done.
    rewrite take_app_le in IH
      by (rewrite length_tl, octet_bits_length; lia).
    change (next_disrepancy st1) with nd1 in IH.
    destruct (walk d j (id_bit_number st - 1) (select c A) _ nd1) as [[cs A'] nd'].
    destruct IH as (Hok' & Hlen & cur' & t' & Hcur' & Hbits & Hrun').
    split; [done|]. split; [simpl; lia|]. exists cur', t'.
    split; [done|]. split.
    + rewrite Hbits. rewrite drop_app_le
        by (rewrite length_tl, octet_bits_length; lia).
      by rewrite <- app_assoc.
    + rewrite search_bits_S. unfold bind. rewrite Hrun. fold (octet_shift cur c).
      fold st1. rewrite Hrun'. unfold st1. simpl.
      rewrite list_insert_insert_eq.
      replace (id_bit_number st - 1 - Z.of_nat j)
        with (id_bit_number st - Z.of_nat (S j)) by lia.
      reflexivity.
Qed.

End BusLoops.

(** ** A whole pass against the bus *)

Lemma walk_app d (j : nat) : forall n p A r1 r2 nd,
  length r1 = j ->
  walk d (j + n) p A (r1 ++ r2) nd =
    let '(cs1, A1, nd1) := walk d j p A r1 nd in
    let '(cs2, A2, nd2) := walk d n (p - Z.of_nat j) A1 r2 nd1 in
    (cs1 ++ cs2, A2, nd2).
Proof.
  induction j as [|j IH]; intros n p A r1 r2 nd Hlen.
  - destruct r1; [|discriminate]. simpl. rewrite Z.sub_0_r.
    by destruct (walk d n p A r2 nd) as [[? ?] ?].
  - destruct r1 as [|x r1]; [discriminate|]. injection Hlen as Hlen.
    change (S j + n)%nat with (S (j + n)). rewrite !walk_S. simpl.
    destruct (choose p d x _ _ nd) as [c nd1].
    rewrite (IH n (p - 1) (select c A) r1 r2 nd1 Hlen).
    destruct (walk d j (p - 1) (select c A) r1 nd1) as [[cs1 A1] nd1'].
    replace (p - 1 - Z.of_nat j) with (p - Z.of_nat (S j)) by lia.
    by destruct (walk d n _ A1 r2 nd1') as [[? ?] ?].
Qed.

Lemma rom_bits_octets (r : list Z) : length r = 8%nat -> rom_bits r = octets_bits r.
Proof.
  intros Hlen. do 8 (destruct r as [|? r]; [discriminate|]).
  destruct r; [|discriminate]. reflexivity.
Qed.

Lemma rom_bits_length (r : list Z) : length (rom_bits r) = 64%nat.
Proof. unfold rom_bits. by rewrite length_map, length_seq. Qed.

Section BusPass.

Context (devs : list ow_rom_t) (d : Z).

(** The outer loop against the bus, over the last [m] octets of the
    buffer. *)
Lemma search_octets_bus (m : nat) : forall st A t,
  id_bit_number st = Z.of_nat (8 * m) -> (m <= 8)%nat ->
  length (st_rom st) = (st_id st + m)%nat -> octets_ok (st_rom st) ->
  regs_ok (8 * m) A ->
  let '(cs, A', nd') :=
    walk d (8 * m) (id_bit_number st) A (octets_bits (drop (st_id st) (st_rom st)))
         (next_disrepancy st) in
  exists rom' id' t',
    search_octets bus_drv m d st (mk_world (bus_at devs (id_bit_number st) A) t) =
      (Next (mk_st rom' id' 0 nd'), mk_world (bus_at devs 0 A') t') /\
    length rom' = length (st_rom st) /\ octets_ok rom' /\
    take (st_id st) rom' = take (st_id st) (st_rom st) /\
    octets_bits (drop (st_id st) rom') = cs.
Proof.
  induction m as [|m IH]; intros st A t Hp Hm Hlen Hoct Hok.
  - change (8 * 0)%nat with 0%nat in *. cbn [walk].
    exists (st_rom st), (st_id st), t.
    rewrite drop_ge by lia.
    split; [|done].
    change (search_octets bus_drv 0 d st)
      with (if id_bit_number st >? 0 then @ret bus _ (GotoOut st) else ret (Next st)).
    rewrite Hp. destruct st. simpl in *. by subst.
  - assert (st_id st < length (st_rom st))%nat as Hid by lia.
    destruct (lookup_lt_is_Some_2 _ _ Hid) as [cur Hcur].
    assert (0 <= cur < 256) as Hrange.
    { unfold octets_ok in Hoct. rewrite Forall_forall in Hoct. apply Hoct.
      by eapply list_elem_of_lookup_2. }
    rewrite (drop_S _ _ _ Hcur). unfold octets_bits at 1. cbn [map concat].
    fold (octets_bits (drop (S (st_id st)) (st_rom st))).
    replace (8 * S m)%nat with (8 + 8 * m)%nat by lia.
    rewrite walk_app by apply octet_bits_length.
    pose proof (search_bits_bus devs d 8 st A t (8 * m) ltac:(lia) ltac:(lia) ltac:(lia)
                  ltac:(by replace (8 + 8 * m)%nat with (8 * S m)%nat by lia)) as Hin.
    cbv zeta in Hin. rewrite (list_lookup_total_correct _ _ _ Hcur) in Hin.
    specialize (Hin Hrange Hid).
    rewrite firstn_all2 in Hin by (by rewrite octet_bits_length).
    destruct (walk d 8 (id_bit_number st) A (octet_bits cur) (next_disrepancy st))
      as [[cs1 A1] nd1].
    destruct Hin as (Hok1 & Hlen1 & cur' & t1 & Hcur' & Hbits & Hrun).
    rewrite drop_ge in Hbits by (by rewrite octet_bits_length). simpl in Hbits.
    set (st2 := next_octet (mk_st (<[st_id st := cur']> (st_rom st)) (st_id st)
                                  (id_bit_number st - Z.of_nat 8) nd1)).
    specialize (IH st2 A1 t1).
    assert (drop (S (st_id st)) (<[st_id st := cur']> (st_rom st))
            = drop (S (st_id st)) (st_rom st)) as Hdrop
      by (apply drop_insert_lt; lia).
    unfold st2, next_octet in IH.
    cbn [st_rom st_id id_bit_number next_disrepancy] in IH. rewrite Hdrop in IH.
    specialize (IH ltac:(lia) ltac:(lia) ltac:(rewrite length_insert; lia)
                  ltac:(by apply Forall_insert) Hok1).
    destruct (walk d (8 * m) (id_bit_number st - Z.of_nat 8) A1 _ nd1) as [[cs2 A2] nd2].
    destruct IH as (rom' & id' & t' & Hrun2 & Hlen2 & Hoct2 & Htake & Hbits2).
    exists rom', id', t'.
    split; [|split; [by rewrite Hlen2, length_insert | split; [done|split]]].
    + rewrite search_octets_S.
      destruct (Z.gtb_spec (id_bit_number st) 0) as [_|]; [|lia].
      unfold bind. rewrite Hrun. fold st2.
      replace (id_bit_number st - 8) with (id_bit_number st - Z.of_nat 8) in Hrun2 by lia.
      exact Hrun2.
    + apply (f_equal (take (st_id st))) in Htake.
      rewrite !take_take in Htake.
      replace (st_id st `min` S (st_id st))%nat with (st_id st) in Htake by lia.
      by rewrite Htake, take_insert_ge.
    + assert (rom' !! st_id st = Some cur') as Hnew.
      { apply (f_equal (fun l => l !! st_id st)) in Htake.
        rewrite !lookup_take_lt in Htake by lia.
        by rewrite Htake, list_lookup_insert_eq. }
      rewrite (drop_S _ _ _ Hnew). unfold octets_bits. cbn [map concat].
      fold (octets_bits (drop (S (st_id st)) rom')). by rewrite Hbits2, Hbits.
Qed.

End BusPass.

Lemma reset_bus dev devs regs ph baud t :
  exists t',
    ow_reset_raw bus_drv (mk_world (mk_bus (dev :: devs) regs ph baud) t) =
      (owOK, mk_world (mk_bus (dev :: devs) [] (BusCommand 0 0) 115200) t').
Proof.
  exists (((t ++ [CallSetBaudrate 9600]) ++ [CallTxRx [OW_RESET_BYTE]])
            ++ [CallSetBaudrate 115200]).
  reflexivity.
Qed.

Lemma search_command_bus devs t :
  exists t',
    ow_write_byte_ex_raw bus_drv OW_CMD_SEARCHROM None
      (mk_world (mk_bus devs [] (BusCommand 0 0) 115200) t) =
      (owOK, None, mk_world (bus_at devs 64 (map rom_bits devs)) t').
Proof. exists (t ++ [CallTxRx (tr_prepare OW_CMD_SEARCHROM)]). reflexivity. Qed.

Lemma regs_ok_devices dev devs : regs_ok 64 (map rom_bits (dev :: devs)).
Proof.
  split; [done|]. apply Forall_forall. intros reg Hin.
  apply list_elem_of_fmap in Hin as (r & -> & _). apply rom_bits_length.
Qed.

(** One call of [ow_search_raw] against the bus with at least one slave,
    entered with a non-zero marker: it returns [owOK], and the ROM and the
    marker it leaves are those of the walk. *)
Lemma search_pass_bus dev devs (ow : ow_t) rom_id regs ph baud t :
  rom_ok (rom ow) -> disrepancy ow <> 0 ->
  let '(cs, _, nd') :=
    walk (disrepancy ow) 64 64 (map rom_bits (dev :: devs)) (rom_bits (rom ow)) 0 in
  exists rom' regs' ph' t',
    ow_search_raw bus_drv ow rom_id (mk_world (mk_bus (dev :: devs) regs ph baud) t) =
      (owOK, mk_ow rom' nd', rom',
       mk_world (mk_bus (dev :: devs) regs' ph' 115200) t') /\
    rom_ok rom' /\ rom_bits rom' = cs.
Proof.
  intros [Hlen Hoct] Hd.
  pose proof (search_octets_bus (dev :: devs) (disrepancy ow) 8
                (mk_st (rom ow) 0 64 OW_LAST_DEV) (map rom_bits (dev :: devs))) as Hloop.
  cbn [st_rom st_id id_bit_number next_disrepancy] in Hloop.
  rewrite drop_0, <- (rom_bits_octets (rom ow) Hlen) in Hloop.
  change (8 * 8)%nat with 64%nat in Hloop. change OW_LAST_DEV with 0 in Hloop.
  destruct (walk (disrepancy ow) 64 64 _ (rom_bits (rom ow)) 0) as [[cs A'] nd'].
  destruct (reset_bus dev devs regs ph baud t) as [t1 Hreset].
  destruct (search_command_bus (dev :: devs) t1) as [t2 Hcmd].
  destruct (Hloop t2 eq_refl ltac:(lia) Hlen Hoct (regs_ok_devices dev devs))
    as (rom' & id' & t' & Hrun & Hlen' & Hoct' & _ & Hbits).
  rewrite drop_0 in Hbits.
  exists rom', A', BusIdle, t'.
  split; [|split; [split; [congruence | done]|]].
  - unfold ow_search_raw, ow_search_with_command_raw.
    destruct (Z.eqb_spec (disrepancy ow) 0) as [|_]; [done|].
    unfold bind. rewrite Hreset.
    change (negb (owr_eqb owOK owOK)) with false. cbv beta iota.
    rewrite Hcmd. cbv beta iota. change OW_LAST_DEV with 0. rewrite Hrun. reflexivity.
  - rewrite rom_bits_octets; [done | congruence].
Qed.

(** ** Successive searches against the bus *)

Lemma wire_value_nonneg r : 0 <= wire_value r.
Proof. apply bits_value_bound. Qed.

Lemma wire_value_bits r : wire_value r = bits_value (rom_bits r).
Proof. reflexivity. Qed.

Arguments wire_value : simpl never.
Arguments rom_bits : simpl never.

Lemma devices_length dev devs x : x ∈ map rom_bits (dev :: devs) -> length x = 64%nat.
Proof.
  destruct (regs_ok_devices dev devs) as [_ Hall]. rewrite Forall_forall in Hall.
  apply Hall.
Qed.

Lemma search_step_bus dev devs (ow : ow_t) rom_id regs ph baud t :
  let S := map rom_bits (dev :: devs) in
  rom_ok (rom ow) -> disrepancy ow <> 0 ->
  exists rom' nd' regs' ph' t',
    ow_search_raw bus_drv ow rom_id (mk_world (mk_bus (dev :: devs) regs ph baud) t) =
      (owOK, mk_ow rom' nd', rom',
       mk_world (mk_bus (dev :: devs) regs' ph' 115200) t') /\
    rom_ok rom' /\ settled S (rom_bits rom') nd' /\
    (64 < disrepancy ow -> forall x, x ∈ S -> bits_value x <= wire_value rom') /\
    (settled S (rom_bits (rom ow)) (disrepancy ow) ->
     wire_value rom' < wire_value (rom ow) /\
     forall x, x ∈ S -> bits_value x < wire_value (rom ow) ->
       bits_value x <= wire_value rom').
Proof.
  intros S Hrom Hd.
  pose proof (search_pass_bus dev devs ow rom_id regs ph baud t Hrom Hd) as Hpass.
  pose proof (regs_ok_devices dev devs) as Hok. fold S in Hpass, Hok.
  pose proof (walk_spec (disrepancy ow) 64 64 S (rom_bits (rom ow)) 0 Hok) as Hwalk.
  pose proof (walk_marker (disrepancy ow) 64 64 S (rom_bits (rom ow)) 0 Hok) as Hmark.
  pose proof (walk_max (disrepancy ow) 64 64 S (rom_bits (rom ow)) 0 Hok) as Hmax.
  pose proof (walk_pred (disrepancy ow) 64 64 S (rom_bits (rom ow)) 0) as Hpred.
  destruct (walk (disrepancy ow) 64 64 S (rom_bits (rom ow)) 0) as [[cs A'] nd'].
  destruct Hpass as (rom' & regs' & ph' & t' & Hrun & Hrom' & Hbits).
  destruct Hwalk as (Hin & _ & Hord). simpl fst in Hmax, Hpred.
  exists rom', nd', regs', ph', t'. rewrite !wire_value_bits, Hbits.
  split; [done|]. split; [done|]. split; [by split|]. split; [done|].
  intros [Hr [[H0 _]|(i & Hi & Hdi & Hbr & Hlast)]]; [done|].
  split.
  - destruct Hbr as (Hri & s & Hs & Htk & Hsi).
    destruct (Hord i s Hi ltac:(lia) Hr Hri Hs Htk Hsi) as [Hpre Hci].
    apply (bits_value_lt i); [|exact Hpre|exact Hci|exact Hri].
    rewrite (devices_length dev devs cs) by exact Hin.
    rewrite (devices_length dev devs (rom_bits (rom ow))) by exact Hr.
    reflexivity.
  - by apply (Hpred i Hok Hi ltac:(lia) Hr Hbr Hlast).
Qed.

Lemma descending_lookup v (roms : list ow_rom_t) (i : nat) r1 r2 :
  descending v (map wire_value roms) -> roms !! i = Some r1 -> roms !! S i = Some r2 ->
  wire_value r2 < wire_value r1.
Proof.
  revert v i. induction roms as [|r roms IH]; intros v i Hd H1 H2.
  - by rewrite lookup_nil in H1.
  - destruct Hd as [_ Hd]. destruct i as [|i].
    + destruct roms as [|r' roms]; [cbn in H2; discriminate|].
      change (Some r = Some r1) in H1. change (Some r' = Some r2) in H2.
      injection H1 as <-. injection H2 as <-. by destruct Hd.
    + exact (IH (wire_value r) i Hd H1 H2).
Qed.

Lemma enumerate_S {D} (drv : ow_ll_drv_t D) (n : nat) ow rom_id :
  enumerate drv (S n) ow rom_id =
    let* (res, ow, rom_id) := ow_search_raw drv ow rom_id in
    if owr_eqb res owOK then
      let* (roms, e, ow) := enumerate drv n ow rom_id in
      ret (rom_id :: roms, e, ow)
    else ret ([], Some res, ow).
Proof. reflexivity. Qed.

Arguments enumerate : simpl never.

(** From a session that holds a found ROM, the searches go on through the
    ROMs of the slaves below it, greatest first, and end with
    [owERRNODEV]. *)
Lemma enumerate_bus_from dev devs (N : nat) :
  let S := map rom_bits (dev :: devs) in
  forall (ow : ow_t) rom_id regs ph baud t,
    Z.to_nat (wire_value (rom ow)) = N ->
    rom_ok (rom ow) -> settled S (rom_bits (rom ow)) (disrepancy ow) ->
    exists roms ow',
      (forall fuel : nat, (length roms < fuel)%nat ->
         fst (enumerate bus_drv fuel ow rom_id
                (mk_world (mk_bus (dev :: devs) regs ph baud) t))
         = (roms, Some owERRNODEV, ow')) /\
      descending (wire_value (rom ow)) (map wire_value roms) /\
      Forall (fun r => rom_bits r ∈ S) roms /\
      (forall x, x ∈ S -> bits_value x < wire_value (rom ow) ->
         exists r, r ∈ roms /\ rom_bits r = x).
Proof.
  intros S. induction N as [N IH] using lt_wf_ind.
  intros ow rom_id regs ph baud t HN Hrom Hset.
  destruct (Z.eq_dec (disrepancy ow) 0) as [Hz|Hnz].
  - exists [], (mk_ow (rom ow) OW_FIRST_DEV). split; [|split; [done|split; [done|]]].
    + intros [|fuel] Hfuel; [simpl in Hfuel; lia|].
      rewrite enumerate_S. unfold bind, ow_search_raw, ow_search_with_command_raw.
      rewrite Hz. reflexivity.
    + intros x Hx Hlt. exfalso. rewrite wire_value_bits in Hlt.
      destruct Hset as [Hr [[_ Hnone]|(i & Hi & Hdi & _)]]; [|lia].
      destruct (bits_first_diff x (rom_bits (rom ow))) as (k & Htk & Hxk & Hrk);
        [|exact Hlt|].
      { rewrite (devices_length dev devs x) by exact Hx.
        rewrite (devices_length dev devs (rom_bits (rom ow))) by exact Hr.
        reflexivity. }
      apply (Hnone k). split; [done|]. by exists x.
  - destruct (search_step_bus dev devs ow rom_id regs ph baud t Hrom Hnz)
      as (rom' & nd' & regs' & ph' & t' & Hrun & Hrom' & Hset' & _ & Hnext).
    destruct (Hnext Hset) as [Hlt Hpred]. fold S in Hset', Hpred.
    pose proof (wire_value_nonneg rom').
    destruct (IH (Z.to_nat (wire_value rom')) ltac:(lia) (mk_ow rom' nd') rom'
                regs' ph' 115200 t' eq_refl Hrom' Hset')
      as (roms & ow' & Henum & Hdesc & Hall & Hfound).
    exists (rom' :: roms), ow'.
    split; [|split; [by split | split; [constructor; [by destruct Hset' | done]|]]].
    + intros [|fuel] Hfuel; [simpl in Hfuel; lia|].
      rewrite enumerate_S. unfold bind. rewrite Hrun.
      change (owr_eqb owOK owOK) with true. cbv beta iota.
      specialize (Henum fuel ltac:(simpl in Hfuel; lia)).
      destruct (enumerate bus_drv fuel (mk_ow rom' nd') rom' _) as [[[roms1 e1] ow1] w1].
      simpl in Henum. injection Henum as -> -> ->. reflexivity.
    + intros x Hx Hx_lt. specialize (Hpred x Hx Hx_lt).
      destruct (Z.eq_dec (bits_value x) (wire_value rom')) as [Heq|Hne].
      * exists rom'. split; [by left|]. symmetry. rewrite wire_value_bits in Heq.
        apply bits_value_inj; [|exact Heq].
        rewrite (devices_length dev devs x) by exact Hx. by rewrite rom_bits_length.
      * destruct (Hfound x Hx ltac:(simpl; lia)) as (r & Hr & Hrx).
        exists r. split; [by right | done].
Qed.

(** C2, as the code has it. Against a bus with at least one slave, a
    search reset followed by successive searches returns [owOK] with a ROM
    some number of times and then [owERRNODEV]; the ROMs returned are the
    ROMs of the slaves on the bus, every slave among them; and each is
    strictly below the one before when ROMs are compared as the numbers
    their bits spell in wire order, the first bit on the wire (bit 0 of
    octet 0) being the most significant: the order is descending, because
    the walk goes towards 1 at a new discrepancy.  For the slaves
    [10 00 ..] and [10 01 ..] the first search returns [10 01 ..], the
    second [10 00 ..] and the third [owERRNODEV]. *)
Theorem search_enumeration_order dev devs (ow : ow_t) rom_id regs ph baud t :
  rom_ok (rom ow) ->
  (exists roms ow',
     (forall fuel : nat, (length roms < fuel)%nat ->
        fst (enumerate bus_drv fuel (snd (ow_search_reset_raw ow)) rom_id
               (mk_world (mk_bus (dev :: devs) regs ph baud) t))
        = (roms, Some owERRNODEV, ow')) /\
     roms <> [] /\
     (forall r, r ∈ roms -> rom_bits r ∈ map rom_bits (dev :: devs)) /\
     (forall x, x ∈ map rom_bits (dev :: devs) -> exists r, r ∈ roms /\ rom_bits r = x) /\
     (forall (i : nat) r1 r2, roms !! i = Some r1 -> roms !! S i = Some r2 ->
        wire_value r2 < wire_value r1))
  /\
  fst (fst (enumerate bus_drv 3 (snd (ow_search_reset_raw (mk_ow rom_uninit OW_LAST_DEV)))
              rom_uninit
              (bus_of [[0x10; 0x00; 0; 0; 0; 0; 0; 0]; [0x10; 0x01; 0; 0; 0; 0; 0; 0]])))
  = ([[0x10; 0x01; 0; 0; 0; 0; 0; 0]; [0x10; 0x00; 0; 0; 0; 0; 0; 0]], Some owERRNODEV).
Proof.
  intros Hrom. split; [|vm_compute; reflexivity].
  set (ow0 := snd (ow_search_reset_raw ow)).
  destruct (search_step_bus dev devs ow0 rom_id regs ph baud t Hrom ltac:(done))
    as (rom' & nd' & regs' & ph' & t' & Hrun & Hrom' & Hset' & Hmax & _).
  specialize (Hmax ltac:(simpl; unfold OW_FIRST_DEV; lia)).
  destruct (enumerate_bus_from dev devs _ (mk_ow rom' nd') rom' regs' ph' 115200 t'
              eq_refl Hrom' Hset') as (roms & ow' & Henum & Hdesc & Hall & Hfound).
  exists (rom' :: roms), ow'. split; [|split; [done|split; [|split]]].
  - intros [|fuel] Hfuel; [simpl in Hfuel; lia|].
    rewrite enumerate_S. unfold bind. rewrite Hrun.
    change (owr_eqb owOK owOK) with true. cbv beta iota.
    specialize (Henum fuel ltac:(simpl in Hfuel; lia)).
    destruct (enumerate bus_drv fuel (mk_ow rom' nd') rom' _) as [[[roms1 e1] ow1] w1].
    simpl in Henum. injection Henum as -> -> ->. reflexivity.
  - intros r Hr. apply elem_of_cons in Hr as [->|Hr]; [by destruct Hset'|].
    rewrite Forall_forall in Hall. by apply Hall.
  - intros x Hx. specialize (Hmax x Hx).
    destruct (Z.eq_dec (bits_value x) (wire_value rom')) as [Heq|Hne].
    + exists rom'. split; [by left|]. symmetry. rewrite wire_value_bits in Heq.
      apply bits_value_inj; [|exact Heq].
      rewrite (devices_length dev devs x) by exact Hx. by rewrite rom_bits_length.
    + destruct (Hfound x Hx ltac:(simpl; lia)) as (r & Hr & Hrx).
      exists r. split; [by right | done].
  - intros i r1 r2. apply (descending_lookup (wire_value rom' + 1)).
    split; [lia | done].
Qed.

Lemma search_enumeration_order_witness :
  (exists roms ow',
     (forall fuel : nat, (length roms < fuel)%nat ->
        fst (enumerate bus_drv fuel (snd (ow_search_reset_raw (mk_ow rom_uninit OW_LAST_DEV)))
               rom_uninit
               (mk_world (mk_bus ([0x28; 0xFF; 0x64; 0x1E; 0x3C; 0x2D; 0x5B; 0x9E] :: [])
                                 [] BusIdle 115200) []))
        = (roms, Some owERRNODEV, ow')) /\
     roms <> [] /\
     (forall r, r ∈ roms ->
        rom_bits r ∈ map rom_bits ([0x28; 0xFF; 0x64; 0x1E; 0x3C; 0x2D; 0x5B; 0x9E] :: [])) /\
     (forall x, x ∈ map rom_bits ([0x28; 0xFF; 0x64; 0x1E; 0x3C; 0x2D; 0x5B; 0x9E] :: []) ->
        exists r, r ∈ roms /\ rom_bits r = x) /\
     (forall (i : nat) r1 r2, roms !! i = Some r1 -> roms !! S i = Some r2 ->
        wire_value r2 < wire_value r1))
  /\
  fst (fst (enumerate bus_drv 3 (snd (ow_search_reset_raw (mk_ow rom_uninit OW_LAST_DEV)))
              rom_uninit
              (bus_of [[0x10; 0x00; 0; 0; 0; 0; 0; 0]; [0x10; 0x01; 0; 0; 0; 0; 0; 0]])))
  = ([[0x10; 0x01; 0; 0; 0; 0; 0; 0]; [0x10; 0x00; 0; 0; 0; 0; 0; 0]], Some owERRNODEV).
Proof.
  apply (search_enumeration_order [0x28; 0xFF; 0x64; 0x1E; 0x3C; 0x2D; 0x5B; 0x9E] []
           (mk_ow rom_uninit OW_LAST_DEV) rom_uninit [] BusIdle 115200 []).
  split; [reflexivity|]. unfold octets_ok. simpl. repeat constructor; lia.
Defined.

(** C2 as the spec words it fails on its own example: the slave [10 01 ..]
    is returned before the slave [10 00 ..], and as 64-bit little-endian
    integers the second ROM returned is below the first.  Nor is the
    little-endian order simply reversed: the slave [01 00 ..] is returned
    before the slave [02 00 ..]. *)
Lemma search_enumeration_order_counterexample :
  let r00 := [0x10; 0x00; 0; 0; 0; 0; 0; 0] in
  let r01 := [0x10; 0x01; 0; 0; 0; 0; 0; 0] in
  let r1 := [0x01; 0x00; 0; 0; 0; 0; 0; 0] in
  let r2 := [0x02; 0x00; 0; 0; 0; 0; 0; 0] in
  let ow := snd (ow_search_reset_raw (mk_ow rom_uninit OW_LAST_DEV)) in
  (fst (fst (enumerate bus_drv 3 ow rom_uninit (bus_of [r00; r01])))
     = ([r01; r00], Some owERRNODEV)
   /\ ~ le_value r01 < le_value r00)
  /\
  (fst (fst (enumerate bus_drv 3 ow rom_uninit (bus_of [r2; r1])))
     = ([r1; r2], Some owERRNODEV)
   /\ le_value r1 < le_value r2).
Proof.
  split; (split; [vm_compute; reflexivity|]).
  - vm_compute. discriminate.
  - vm_compute. reflexivity.
Qed.

(** C5 on a line that reads high in every slot. *)
Lemma write_byte_exchange_witness :
  let drv := fixed_drv (fun _ => true) true 0xFF in
  let w := mk_world tt [] in
  let tx := tr_prepare 0xA5 in
  exists ok rx d',
    ll_tx_rx drv tx (ll_state w) = (ok, rx, d') /\
    length tx = 8%nat /\ length rx = 8%nat /\
    (forall i : nat, (i < 8)%nat ->
       tx !! i = Some (if Z.testbit 0xA5 (Z.of_nat i) then 0xFF else 0x00)) /\
    snd (ow_write_byte_ex_raw drv 0xA5 (Some 0) w) = mk_world d' (ll_trace w ++ [CallTxRx tx]) /\
    (ok = true ->
       exists r, fst (ow_write_byte_ex_raw drv 0xA5 (Some 0) w) = (owOK, SET_NOT_NULL (Some 0) r) /\
         forall i : nat, (i < 8)%nat ->
           Z.testbit r (Z.of_nat i) = bool_decide (rx !! i = Some 0xFF)) /\
    ow_read_byte_ex_raw drv (Some 0) w = ow_write_byte_ex_raw drv 0xFF (Some 0) w.
Proof.
  intros drv w. apply (write_byte_exchange drv 0xA5 (Some 0) w).
Defined.

(** ** The scenarios of the specification, run *)

Example scenario_single_device :
  fst (fst (enumerate bus_drv 2 (snd (ow_search_reset_raw (mk_ow rom_uninit OW_LAST_DEV)))
              rom_uninit (bus_of [[0x28; 0xFF; 0x64; 0x1E; 0x3C; 0x2D; 0x5B; 0x9E]])))
  = ([[0x28; 0xFF; 0x64; 0x1E; 0x3C; 0x2D; 0x5B; 0x9E]], Some owERRNODEV).
Proof. vm_compute. reflexivity. Qed.

(** The visitor of this run keeps the index and the ROM of every call. *)
Example scenario_batch_callback :
  let visit := fun (_ : ow_t) (r : option (list Z)) (i : nat)
                   (seen : list (nat * option (list Z))) =>
                 @ret bus _ (owOK, seen ++ [(i, r)]) in
  fst (ow_search_with_callback bus_drv visit 4 (mk_ow rom_uninit OW_LAST_DEV) (Some 0%nat) []
         (bus_of [[0x00; 0; 0; 0; 0; 0; 0; 0]; [0x01; 0; 0; 0; 0; 0; 0; 0];
                  [0x03; 0; 0; 0; 0; 0; 0; 0]]))
  = Some (owOK, mk_ow [0x00; 0; 0; 0; 0; 0; 0; 0] OW_FIRST_DEV, Some 3%nat,
          [(0%nat, Some [0x03; 0; 0; 0; 0; 0; 0; 0]);
           (1%nat, Some [0x01; 0; 0; 0; 0; 0; 0; 0]);
           (2%nat, Some [0x00; 0; 0; 0; 0; 0; 0; 0]);
           (3%nat, None)]).
Proof. vm_compute. reflexivity. Qed.

Example scenario_array_of_one :
  let w := bus_of [[0x00; 0; 0; 0; 0; 0; 0; 0]; [0x01; 0; 0; 0; 0; 0; 0; 0];
                   [0x03; 0; 0; 0; 0; 0; 0; 0]] in
  let '(res, ow, arr, found, w1) :=
    ow_search_devices_raw bus_drv (mk_ow rom_uninit OW_LAST_DEV) [rom_uninit] 1 (Some 0%nat) w in
  (res, arr, found) = (owOK, [[0x03; 0; 0; 0; 0; 0; 0; 0]], Some 1%nat) /\
  fst (ow_search_raw bus_drv ow rom_uninit w1)
    = (owOK, mk_ow [0x01; 0; 0; 0; 0; 0; 0; 0] 64, [0x01; 0; 0; 0; 0; 0; 0; 0]).
Proof. vm_compute. split; reflexivity. Qed.

(** ** The byte exchange read back *)

Lemma tr_collect_range (tr : list Z) : 0 <= tr_collect tr < 256.
Proof.
  unfold tr_collect.
  assert (forall (l : list nat) acc, 0 <= acc < 256 ->
            0 <= fold_left
                   (fun (r : Z) (i : nat) =>
                      if (tr !!! i) =? 0xFF
                      then u8 (Z.lor r (Z.shiftl 0x01 (Z.of_nat i))) else r) l acc < 256)
    as Hfold.
  { induction l as [|i l IH]; intros acc Hacc; [done|].
    simpl. apply IH. destruct (tr !!! i =? 255); [apply u8_range | done]. }
  apply Hfold. lia.
Qed.

Lemma tr_collect_prepare (b : Z) : tr_collect (tr_prepare b) = u8 b.
Proof.
  apply Z.bits_inj'. intros n Hn.
  rewrite <- (Z2Nat.id n) by done. rewrite tr_collect_testbit, u8_testbit by lia.
  case_bool_decide as Hi.
  - rewrite (list_lookup_total_correct _ _ _ (tr_prepare_lookup b _ Hi)).
    replace (Z.of_nat (Z.to_nat n) <? 8) with true by (symmetry; apply Z.ltb_lt; lia).
    by destruct (Z.testbit b (Z.of_nat (Z.to_nat n))).
  - replace (Z.of_nat (Z.to_nat n) <? 8) with false by (symmetry; apply Z.ltb_ge; lia).
    by rewrite andb_false_r.
Qed.

Lemma u8_octet (b : Z) : 0 <= b < 256 -> u8 b = b.
Proof.
  intros Hb. unfold u8. change 0xFF with (Z.ones 8).
  rewrite Z.land_ones, Z.mod_small; lia.
Qed.

Section ByteFacts.

Context {D : Type} (drv : ow_ll_drv_t D).

(** X1. On a transport that samples every octet as it was sent (nothing on
    the line pulls it low), the byte read back by [ow_write_byte_ex_raw] and
    by the deprecated [ow_write_byte_raw] is the byte written. *)
Theorem write_byte_loopback (btw v : Z) (w : world D) (d' : D) :
  0 <= btw < 256 ->
  ll_tx_rx drv (tr_prepare btw) (ll_state w) = (true, tr_prepare btw, d') ->
  fst (ow_write_byte_ex_raw drv btw (Some v) w) = (owOK, Some btw) /\
  fst (ow_write_byte_raw drv btw w) = btw.
Proof.
  intros Hb Hx. unfold ow_write_byte_raw, ow_write_byte_ex_raw. run_calls.
  rewrite Hx. simpl. by rewrite tr_collect_prepare, u8_octet.
Qed.

(** X2. The deprecated calls return an octet whatever the transport
    samples, [ow_read_bit_raw] a bit; and when the exchange fails they
    return [0x00], the value of a line read low. *)
Theorem deprecated_calls_results (b : Z) (w : world D) :
  0 <= fst (ow_write_byte_raw drv b w) < 256 /\
  0 <= fst (ow_read_byte_raw drv w) < 256 /\
  0 <= fst (ow_read_bit_raw drv w) <= 1 /\
  (fst (fst (ll_tx_rx drv (tr_prepare b) (ll_state w))) = false ->
   fst (ow_write_byte_raw drv b w) = 0) /\
  (fst (fst (ll_tx_rx drv (tr_prepare 0xFF) (ll_state w))) = false ->
   fst (ow_read_byte_raw drv w) = 0) /\
  (fst (fst (ll_tx_rx drv [0xFF] (ll_state w))) = false ->
   fst (ow_read_bit_raw drv w) = 0).
Proof.
  unfold ow_write_byte_raw, ow_read_byte_raw, ow_read_bit_raw, ow_read_byte_ex_raw,
    ow_read_bit_ex_raw, ow_write_byte_ex_raw, send_bit.
  run_calls.
  destruct (ll_tx_rx drv (tr_prepare b) (ll_state w)) as [[ok1 rx1] d1].
  destruct (ll_tx_rx drv (tr_prepare 255) (ll_state w)) as [[ok2 rx2] d2].
  destruct (ll_tx_rx drv [255] (ll_state w)) as [[ok3 rx3] d3]. simpl.
  pose proof (tr_collect_range rx1). pose proof (tr_collect_range rx2).
  repeat split; try (destruct ok1; simpl; lia); try (destruct ok2; simpl; lia);
    try (destruct ok3; simpl; [destruct (rx3 !!! 0%nat =? 255); simpl; lia | lia]);
    by intros ->.
Qed.

Lemma write_byte_call (b : Z) (w : world D) :
  exists res w',
    ow_write_byte_ex_raw drv b None w = (res, None, w') /\
    ll_trace w' = ll_trace w ++ [CallTxRx (tr_prepare b)] /\
    (res = owOK \/ res = owERRTXRX).
Proof.
  unfold ow_write_byte_ex_raw. run_calls.
  destruct (ll_tx_rx drv (tr_prepare b) (ll_state w)) as [[ok rx] d'].
  destruct ok; simpl; do 2 eexists; (split; [reflexivity|]); simpl; auto.
Qed.



End ByteFacts.

Lemma write_byte_loopback_witness :
  fst (ow_write_byte_ex_raw bus_drv 0xA5 (Some 0) (bus_of [])) = (owOK, Some 0xA5) /\
  fst (ow_write_byte_raw bus_drv 0xA5 (bus_of [])) = 0xA5.
Proof.
  apply (write_byte_loopback bus_drv 0xA5 0 (bus_of []) (ll_state (bus_of [])));
    [lia | reflexivity].
Defined.

Lemma deprecated_calls_results_witness :
  let drv := fixed_drv (fun _ => true) false 0xFF in
  fst (ow_write_byte_raw drv 0xA5 (mk_world tt [])) = 0 /\
  fst (ow_read_byte_raw drv (mk_world tt [])) = 0 /\
  fst (ow_read_bit_raw drv (mk_world tt [])) = 0.
Proof.
  intros drv.
  destruct (deprecated_calls_results drv 0xA5 (mk_world tt [])) as (_ & _ & _ & H1 & H2 & H3).
  split; [apply H1; reflexivity | split; [apply H2; reflexivity | apply H3; reflexivity]].
Defined.


(** ** What a pass of the search puts on the wire *)

Lemma pass_slots_cons c cs : pass_slots (c :: cs) = bit_slots c ++ pass_slots cs.
Proof. reflexivity. Qed.

Lemma pass_slots_app cs1 cs2 : pass_slots (cs1 ++ cs2) = pass_slots cs1 ++ pass_slots cs2.
Proof. unfold pass_slots. by rewrite map_app, concat_app. Qed.

Lemma pass_slots_length cs : length (pass_slots cs) = (3 * length cs)%nat.
Proof.
  induction cs as [|c cs IH]; [done|].
  rewrite pass_slots_cons, length_app, IH. simpl. lia.
Qed.

Section PassTrace.

Context {D : Type} (drv : ow_ll_drv_t D).

Lemma send_bit_trace (btw : Z) (btr : option Z) (w : world D) :
  ll_trace (snd (send_bit drv btw btr w)) =
    ll_trace w ++ [CallTxRx [if btw >? 0 then 0xFF else 0x00]].
Proof.
  unfold send_bit. run_calls.
  destruct (ll_tx_rx drv _ (ll_state w)) as [[ok rx] d']. by destruct ok.
Qed.

(** What the reset has put on the wire by the time it returns. *)
Lemma reset_calls (w : world D) :
  let '(res, w') := ow_reset_raw drv w in
  exists k : nat,
    ll_trace w' = ll_trace w ++
      take k [CallSetBaudrate 9600; CallTxRx [OW_RESET_BYTE]; CallSetBaudrate 115200] /\
    (res = owOK -> k = 3%nat) /\
    (res = owOK \/ res = owERRBAUD \/ res = owERRTXRX \/ res = owERRPRESENCE).
Proof.
  unfold ow_reset_raw. run_calls.
  destruct (ll_set_baudrate drv 9600 (ll_state w)) as [ok1 d1]. simpl.
  destruct ok1; simpl; [|exists 1%nat; split; [done | split; [done | auto]]].
  destruct (ll_tx_rx drv [OW_RESET_BYTE] d1) as [[ok2 rx] d2]. simpl.
  destruct ok2; simpl;
    [|exists 2%nat; split; [by rewrite <- app_assoc | split; [done | auto]]].
  destruct (ll_set_baudrate drv 115200 d2) as [ok3 d3]. simpl.
  destruct ok3; simpl;
    [|exists 3%nat; split; [by rewrite <- !app_assoc | split; [done | auto]]].
  destruct ((rx !!! 0%nat =? 0) || (rx !!! 0%nat =? OW_RESET_BYTE));
    exists 3%nat; (split; [by rewrite <- !app_assoc | split; [done | auto]]).
Qed.

(** A turn of the loop that goes on has written one bit [c], spent three
    exchanges on it and shifted [c] into the octet under [id]. *)
Lemma search_bit_next (d : Z) (st st' : search_st) (w w' : world D) :
  search_bit drv d st w = (Next st', w') ->
  exists c : bool,
    st' = mk_st (<[st_id st := octet_shift (st_rom st !!! st_id st) c]> (st_rom st))
                (st_id st) (id_bit_number st) (next_disrepancy st') /\
    ll_trace w' = ll_trace w ++ bit_slots c.
Proof.
  unfold search_bit, bind.
  pose proof (send_bit_result drv 1 0 w) as H1.
  pose proof (send_bit_trace 1 (Some 0) w) as T1.
  destruct (send_bit drv 1 (Some 0) w) as [[r1 b] w1].
  destruct H1 as [[-> ->]|[-> Hb]]; cbn [negb owr_eqb]; [discriminate|].
  pose proof (send_bit_result drv 1 0 w1) as H2.
  pose proof (send_bit_trace 1 (Some 0) w1) as T2.
  destruct (send_bit drv 1 (Some 0) w1) as [[r2 b_cpl] w2].
  destruct H2 as [[-> ->]|[-> Hc]]; cbn [negb owr_eqb]; [discriminate|].
  simpl in T1, T2.
  assert (forall c : bool,
            (let* _ := send_bit drv (Z.b2z c) None in
             ret (Next (mk_st (<[st_id st :=
                                   u8 (Z.lor (Z.shiftr (st_rom st !!! st_id st) 1)
                                             (Z.shiftl (Z.b2z c) 7))]> (st_rom st))
                              (st_id st) (id_bit_number st) (next_disrepancy st'))))
              w2 = (Next st', w') ->
            exists c : bool,
              st' = mk_st (<[st_id st := octet_shift (st_rom st !!! st_id st) c]> (st_rom st))
                          (st_id st) (id_bit_number st) (next_disrepancy st') /\
              ll_trace w' = ll_trace w ++ bit_slots c) as Hend.
  { intros c. unfold bind, ret.
    pose proof (send_bit_trace (Z.b2z c) None w2) as T3.
    destruct (send_bit drv (Z.b2z c) None w2) as [x w3]. simpl in T3.
    intros [= <- <-]. exists c. split; [reflexivity|].
    rewrite T3, T2, T1, <- !app_assoc. by destruct c. }
  destruct Hb as [-> | ->], Hc as [-> | ->]; unfold choose_bit; simpl.
  - destruct (force_one _ _ _).
    + intros Hrun. apply (Hend true).
      unfold bind, ret in *. simpl.
      destruct (send_bit drv 1 None w2) as [x w3].
      injection Hrun as <- <-. reflexivity.
    + intros Hrun. apply (Hend false).
      unfold bind, ret in *. simpl.
      destruct (send_bit drv 0 None w2) as [x w3].
      injection Hrun as <- <-. reflexivity.
  - intros Hrun. apply (Hend false).
    unfold bind, ret in *. simpl.
    destruct (send_bit drv 0 None w2) as [x w3].
    injection Hrun as <- <-. reflexivity.
  - intros Hrun. apply (Hend true).
    unfold bind, ret in *. simpl.
    destruct (send_bit drv 1 None w2) as [x w3].
    injection Hrun as <- <-. reflexivity.
  - discriminate.
Qed.

Lemma search_bits_next (j : nat) (d : Z) : forall (st st' : search_st) (w w' : world D),
  search_bits drv j d st w = (Next st', w') ->
  (j <= 8)%nat ->
  0 <= st_rom st !!! st_id st < 256 -> (st_id st < length (st_rom st))%nat ->
  exists cs cur',
    length cs = j /\ 0 <= cur' < 256 /\
    octet_bits cur' = drop j (octet_bits (st_rom st !!! st_id st)) ++ cs /\
    st_rom st' = <[st_id st := cur']> (st_rom st) /\
    ll_trace w' = ll_trace w ++ pass_slots cs.
Proof.
  induction j as [|j IH]; intros st st' w w' Hrun Hj Hcur Hid.
  - injection Hrun as <- <-. exists [], (st_rom st !!! st_id st).
    split; [done|]. split; [done|]. split; [by rewrite drop_0, app_nil_r|].
    split; [|by rewrite app_nil_r].
    symmetry. apply list_insert_id. by apply list_lookup_lookup_total_lt.
  - rewrite search_bits_S in Hrun. unfold bind in Hrun.
    destruct (search_bit drv d st w) as [[st1|st1|st1] w1] eqn:Hbit;
      [|discriminate|discriminate].
    apply search_bit_next in Hbit as (c & Hst1 & Ht).
    set (cur := st_rom st !!! st_id st) in *.
    assert (st_rom (next_bit st1) = <[st_id st := octet_shift cur c]> (st_rom st)) as Hrom1
      by (by rewrite Hst1).
    assert (st_id (next_bit st1) = st_id st) as Hid1 by (by rewrite Hst1).
    assert (st_rom (next_bit st1) !!! st_id (next_bit st1) = octet_shift cur c) as Hcur1.
    { rewrite Hrom1, Hid1. by apply list_lookup_total_insert_eq. }
    destruct (IH (next_bit st1) st' w1 w' Hrun ltac:(lia)) as (cs & cur' & Hlen & Hcur' & Hbits & Hrom' & Ht').
    { rewrite Hcur1. apply u8_range. }
    { by rewrite Hrom1, Hid1, length_insert. }
    rewrite Hcur1 in Hbits. rewrite Hrom1, Hid1 in Hrom'.
    exists (c :: cs), cur'. split; [simpl; lia|]. split; [done|]. split; [|split].
    + rewrite Hbits, octet_bits_shift by done.
      rewrite drop_app_le by (rewrite length_tl, octet_bits_length; lia).
      by rewrite <- app_assoc.
    + by rewrite Hrom', list_insert_insert_eq.
    + by rewrite Ht', Ht, pass_slots_cons, <- app_assoc.
Qed.

Lemma search_octets_next (n : nat) (d : Z) :
  forall (m : nat) (st st' : search_st) (w w' : world D),
    search_octets drv n d st w = (Next st', w') ->
    id_bit_number st = 8 * Z.of_nat m -> (m <= n)%nat -> (m <= 8)%nat ->
    length (st_rom st) = (st_id st + m)%nat -> octets_ok (st_rom st) ->
    length (st_rom st') = length (st_rom st) /\ octets_ok (st_rom st') /\
    take (st_id st) (st_rom st') = take (st_id st) (st_rom st) /\
    ll_trace w' = ll_trace w ++ pass_slots (octets_bits (drop (st_id st) (st_rom st'))).
Proof.
  assert (forall (st st' : search_st) (w w' : world D),
            id_bit_number st = 8 * Z.of_nat 0 ->
            length (st_rom st) = (st_id st + 0)%nat ->
            @ret D _ (Next st) w = (Next st', w') -> octets_ok (st_rom st) ->
            length (st_rom st') = length (st_rom st) /\ octets_ok (st_rom st') /\
            take (st_id st) (st_rom st') = take (st_id st) (st_rom st) /\
            ll_trace w' =
              ll_trace w ++ pass_slots (octets_bits (drop (st_id st) (st_rom st')))) as Hstop.
  { intros st st' w w' _ Hlen [= <- <-] Hoct.
    rewrite drop_ge by lia. by rewrite app_nil_r. }
  induction n as [|n IH]; intros m st st' w w' Hrun Hp Hm Hm8 Hlen Hoct.
  - assert (m = 0%nat) as -> by lia.
    change (search_octets drv 0 d st)
      with (if id_bit_number st >? 0 then @ret D _ (GotoOut st) else ret (Next st)) in Hrun.
    rewrite Hp in Hrun. by apply (Hstop st st' w w').
  - rewrite search_octets_S in Hrun.
    destruct (Z.gtb_spec (id_bit_number st) 0) as [Hpos|Hz].
    + destruct m as [|m]; [lia|]. unfold bind in Hrun.
      pose proof (search_bits_frame drv 8 d st w ltac:(lia)) as Hf.
      destruct (search_bits drv 8 d st w) as [[st1|st1|st1] w1] eqn:Hbits;
        [|discriminate|discriminate].
      simpl in Hf. destruct Hf as (_ & Hid1 & Hn1).
      assert (st_id st < length (st_rom st))%nat as Hid by lia.
      destruct (lookup_lt_is_Some_2 _ _ Hid) as [cur Hcur].
      assert (0 <= cur < 256) as Hrange.
      { unfold octets_ok in Hoct. rewrite Forall_forall in Hoct. apply Hoct.
        by eapply list_elem_of_lookup_2. }
      apply search_bits_next in Hbits as (cs & cur' & Hcs & Hcur' & Hb & Hrom1 & Ht1);
        [|lia|by rewrite (list_lookup_total_correct _ _ _ Hcur)|done].
      rewrite drop_ge in Hb by (by rewrite octet_bits_length). simpl in Hb.
      destruct (IH m (next_octet st1) st' w1 w' Hrun) as (Hlen' & Hoct' & Htake & Ht');
        [simpl; lia | lia | lia | simpl; rewrite Hrom1, Hid1, length_insert; lia
        | simpl; rewrite Hrom1; by apply Forall_insert |].
      simpl in Hlen', Htake, Ht'. rewrite Hrom1 in Hlen', Htake. rewrite Hid1 in Htake, Ht'.
      rewrite length_insert in Hlen'.
      split; [done|]. split; [done|]. split.
      * apply (f_equal (take (st_id st))) in Htake.
        rewrite !take_take in Htake.
        replace (st_id st `min` S (st_id st))%nat with (st_id st) in Htake by lia.
        by rewrite Htake, take_insert_ge.
      * assert (st_rom st' !! st_id st = Some cur') as Hnew.
        { apply (f_equal (fun l => l !! st_id st)) in Htake.
          rewrite !lookup_take_lt in Htake by lia.
          by rewrite Htake, list_lookup_insert_eq. }
        rewrite (drop_S _ _ _ Hnew). unfold octets_bits. cbn [map concat].
        fold (octets_bits (drop (S (st_id st)) (st_rom st'))).
        by rewrite pass_slots_app, Hb, Ht', Ht1, <- app_assoc.
    + assert (m = 0%nat) as -> by lia. by apply (Hstop st st' w w').
Qed.

(** The ROM buffer keeps its length and its octets stay octets through a
    turn and through the loops, however they end. *)
Lemma search_bit_rom (d : Z) (st : search_st) (w : world D) :
  let st' := flow_st (fst (search_bit drv d st w)) in
  length (st_rom st') = length (st_rom st) /\
  (octets_ok (st_rom st) -> octets_ok (st_rom st')).
Proof.
  unfold search_bit, bind.
  destruct (send_bit drv 1 (Some 0) w) as [[r1 b] w1].
  destruct (owr_eqb r1 owOK); simpl; [|done].
  destruct (send_bit drv 1 (Some 0) w1) as [[r2 b_cpl] w2].
  destruct (owr_eqb r2 owOK); simpl; [|done].
  destruct (truthy (default 0 b) && truthy (default 0 b_cpl)); simpl; [done|].
  destruct (choose_bit _ _ _ _ _ _) as [c nd].
  destruct (send_bit drv c None w2) as [x w3]. simpl.
  split; [apply length_insert|]. intros Hoct. apply Forall_insert; [done|apply u8_range].
Qed.

Lemma search_bits_rom (j : nat) (d : Z) : forall (st : search_st) (w : world D),
  let st' := flow_st (fst (search_bits drv j d st w)) in
  length (st_rom st') = length (st_rom st) /\
  (octets_ok (st_rom st) -> octets_ok (st_rom st')).
Proof.
  induction j as [|j IH]; intros st w; [done|].
  rewrite search_bits_S. unfold bind.
  pose proof (search_bit_rom d st w) as Hbit.
  destruct (search_bit drv d st w) as [[st1|st1|st1] w1]; [|done|done].
  simpl in Hbit. specialize (IH (next_bit st1) w1). simpl in IH.
  destruct Hbit as [Hl Ho], IH as [Hl' Ho']. cbv zeta.
  split; [congruence | auto].
Qed.

Lemma search_octets_rom (n : nat) (d : Z) : forall (st : search_st) (w : world D),
  let st' := flow_st (fst (search_octets drv n d st w)) in
  length (st_rom st') = length (st_rom st) /\
  (octets_ok (st_rom st) -> octets_ok (st_rom st')).
Proof.
  induction n as [|n IH]; intros st w.
  - change (search_octets drv 0 d st)
      with (if id_bit_number st >? 0 then @ret D _ (GotoOut st) else ret (Next st)).
    by destruct (id_bit_number st >? 0).
  - rewrite search_octets_S. destruct (id_bit_number st >? 0); [|done].
    unfold bind.
    pose proof (search_bits_rom 8 d st w) as Hbits.
    destruct (search_bits drv 8 d st w) as [[st1|st1|st1] w1]; [|done|done].
    simpl in Hbits. specialize (IH (next_octet st1) w1). simpl in IH.
    destruct Hbits as [Hl Ho], IH as [Hl' Ho']. cbv zeta.
    split; [congruence | auto].
Qed.

End PassTrace.

(** ** What a search call returns, and what it leaves behind *)

Section SearchOutcome.

Context {D : Type} (drv : ow_ll_drv_t D).

(** X4. Over any transport a search never returns the generic [owERR].  A
    result other than [owOK] and [owERRNODEV] (a failed reset or a failed
    exchange) leaves the caller's [rom_id] and the marker [ow->disrepancy]
    as they were, and after [owERRPRESENCE] or [owERRBAUD] the whole session
    is as it was.  A call entered with the marker at 0 talks to nothing: it
    returns [owERRNODEV], rearms the marker to [0xFF] and leaves the ROM
    buffer and [rom_id] alone, so that the next call starts over. *)
Theorem search_outcomes (ow : ow_t) (cmd : Z) (rom_id : ow_rom_t) (w : world D) :
  let '(res, ow', rom_id', w') := ow_search_with_command_raw drv ow cmd rom_id w in
  res <> owERR /\
  (res = owOK -> rom_id' = rom ow') /\
  (res <> owOK -> res <> owERRNODEV ->
   rom_id' = rom_id /\ disrepancy ow' = disrepancy ow) /\
  (res = owERRPRESENCE \/ res = owERRBAUD -> ow' = ow) /\
  (disrepancy ow = 0 ->
   res = owERRNODEV /\ w' = w /\ ow' = mk_ow (rom ow) OW_FIRST_DEV /\ rom_id' = rom_id).
Proof.
  unfold ow_search_with_command_raw.
  destruct (Z.eqb_spec (disrepancy ow) 0) as [Hz|Hnz].
  - simpl. unfold ret.
    split; [done|]. split; [done|]. split; [done|]. split; [|done].
    intros [?|?]; discriminate.
  - unfold bind. pose proof (reset_calls drv w) as Hr.
    destruct (ow_reset_raw drv w) as [res w1]. destruct Hr as (k & _ & _ & Hres).
    destruct Hres as [-> | [-> | [-> | ->]]]; cbn [negb owr_eqb]; unfold ret.
    2-4: split; [done|]; split; [done|]; split; [done|]; split; done.
    destruct (ow_write_byte_ex_raw drv cmd None w1) as [x w2].
    destruct (search_octets drv 8 (disrepancy ow) _ w2) as [[st|st|st] w3].
    1-2: destruct (id_bit_number st =? 0);
      (split; [done|]; split; [done|]; split; [done|]; split; [|done]);
      intros [?|?]; discriminate.
    split; [done|]. split; [done|]. split; [done|]. split; [|done].
    intros [?|?]; discriminate.
Qed.

(** X5. Over any transport, a search that returns [owOK] has put on the
    wire the reset (both baudrate changes around the exchange of [0xF0]),
    the eight octets of the command, and then for each of the 64 ROM bits two
    read slots and one direction slot, 196 calls in all; and the direction
    slots spell, in wire order, exactly the ROM that is returned, which is
    an array of eight octets. *)
Theorem search_ok_trace (ow ow' : ow_t) (cmd : Z) (rom_id rom_id' : ow_rom_t)
    (w w' : world D) :
  rom_ok (rom ow) ->
  ow_search_with_command_raw drv ow cmd rom_id w = (owOK, ow', rom_id', w') ->
  rom_id' = rom ow' /\ rom_ok rom_id' /\
  ll_trace w' = ll_trace w ++ search_prologue cmd ++ pass_slots (rom_bits rom_id') /\
  length (ll_trace w') = (length (ll_trace w) + 196)%nat.
Proof.
  intros [Hlen Hoct]. unfold ow_search_with_command_raw.
  destruct (Z.eqb_spec (disrepancy ow) 0) as [Hz|Hnz]; [discriminate|].
  unfold bind. pose proof (reset_calls drv w) as Hr.
  destruct (ow_reset_raw drv w) as [res w1]. destruct Hr as (k & Ht1 & Hk & Hres).
  destruct Hres as [-> | [-> | [-> | ->]]]; cbn [negb owr_eqb]; try discriminate.
  rewrite (Hk eq_refl) in Ht1. cbn [take] in Ht1.
  destruct (write_byte_call drv cmd w1) as (r & w2 & -> & Ht2 & _).
  pose proof (search_octets_frame drv 8 8 (disrepancy ow)
                (mk_st (rom ow) 0 64 OW_LAST_DEV) w2 eq_refl ltac:(lia) ltac:(lia)) as Hf.
  destruct (search_octets drv 8 (disrepancy ow) _ w2) as [[st|st|st] w3] eqn:Hloop;
    simpl in Hf; unfold ret.
  - destruct Hf as [_ Hp]. rewrite Hp. intros [= <- <- <-]. cbn [rom].
    apply (search_octets_next drv 8 _ 8) in Hloop as (Hlen' & Hoct' & _ & Ht3);
      [|done|lia|lia|done|done].
    cbn [st_rom st_id] in Hlen', Ht3. rewrite drop_0 in Ht3.
    assert (ll_trace w3 =
              ll_trace w ++ search_prologue cmd ++ pass_slots (rom_bits (st_rom st))) as Ht.
    { rewrite rom_bits_octets by congruence.
      rewrite Ht3, Ht2, Ht1, <- !app_assoc. reflexivity. }
    split; [done|]. split; [split; [congruence | done]|]. split; [exact Ht|].
    rewrite Ht, !length_app, pass_slots_length, rom_bits_length. simpl. lia.
  - destruct Hf as (_ & Hp & _).
    destruct (Z.eqb_spec (id_bit_number st) 0); [lia | discriminate].
  - discriminate.
Qed.

(** X6. A search call keeps the session well formed over any transport and
    whatever it returns: the ROM buffer stays an array of eight octets and
    the marker stays a bit position in 0..64 or [0xFF].  The caller's
    [rom_id] is either untouched or a copy of the session's buffer. *)
Theorem search_keeps_session (ow : ow_t) (cmd : Z) (rom_id : ow_rom_t) (w : world D) :
  session_ok ow ->
  let '(res, ow', rom_id', w') := ow_search_with_command_raw drv ow cmd rom_id w in
  session_ok ow' /\ (rom_id' = rom_id \/ rom_id' = rom ow').
Proof.
  intros [[Hlen Hoct] Hmark]. unfold ow_search_with_command_raw.
  destruct (Z.eqb_spec (disrepancy ow) 0) as [Hz|Hnz].
  - simpl. unfold ret. split; [|by left]. split; [by split | by right].
  - unfold bind. destruct (ow_reset_raw drv w) as [res w1].
    destruct (owr_eqb res owOK); cbn [negb]; unfold ret;
      [|split; [split; [by split | done] | by left]].
    destruct (ow_write_byte_ex_raw drv cmd None w1) as [x w2].
    pose proof (search_octets_frame drv 8 8 (disrepancy ow)
                  (mk_st (rom ow) 0 64 OW_LAST_DEV) w2 eq_refl ltac:(lia) ltac:(lia)) as Hf.
    pose proof (search_octets_rom drv 8 (disrepancy ow)
                  (mk_st (rom ow) 0 64 OW_LAST_DEV) w2) as Hrom.
    destruct (search_octets drv 8 (disrepancy ow) _ w2) as [[st|st|st] w3];
      unfold loop_frame in Hf; simpl in Hf, Hrom; destruct Hrom as [Hlen' Hoct'].
    + destruct Hf as ((_ & _ & _ & Hnd) & Hp).
      split; [|by right]. unfold session_ok, rom_ok. cbn [rom disrepancy].
      split; [split; [congruence | auto]|].
      left. unfold OW_LAST_DEV in Hnd. lia.
    + destruct Hf as ((_ & _ & _ & Hnd) & Hp & _).
      split; [|by right]. unfold session_ok, rom_ok. cbn [rom disrepancy].
      split; [split; [congruence | auto]|].
      left. unfold OW_LAST_DEV in Hnd. lia.
    + split; [|by left]. unfold session_ok, rom_ok. cbn [rom disrepancy].
      split; [split; [congruence | auto] | done].
Qed.

End SearchOutcome.

Lemma rom_ok_octets (r : list Z) :
  length r = 8%nat -> forallb (fun x => (0 <=? x) && (x <? 256)) r = true -> rom_ok r.
Proof.
  intros Hlen Hall. split; [done|]. apply Forall_forall. intros x Hx.
  rewrite forallb_forall in Hall. specialize (Hall x (proj1 (list_elem_of_In _ _) Hx)).
  apply andb_true_iff in Hall as [H1 H2].
  apply Z.leb_le in H1. apply Z.ltb_lt in H2. lia.
Qed.

Lemma search_ok_trace_witness :
  let dev := [0x28; 0xFF; 0x64; 0x1E; 0x3C; 0x2D; 0x5B; 0x9E] in
  let ow := mk_ow rom_uninit OW_FIRST_DEV in
  let w' := snd (ow_search_with_command_raw bus_drv ow OW_CMD_SEARCHROM rom_uninit
                   (bus_of [dev])) in
  dev = rom (mk_ow dev 0) /\ rom_ok dev /\
  ll_trace w' = [] ++ search_prologue OW_CMD_SEARCHROM ++ pass_slots (rom_bits dev) /\
  length (ll_trace w') = (0 + 196)%nat.
Proof.
  intros dev ow w'.
  apply (search_ok_trace bus_drv ow (mk_ow dev 0) OW_CMD_SEARCHROM rom_uninit dev
           (bus_of [dev]) w').
  - by apply rom_ok_octets.
  - vm_compute. reflexivity.
Defined.

Lemma search_keeps_session_witness :
  let ow := mk_ow rom_uninit OW_FIRST_DEV in
  let '(res, ow', rom_id', w') :=
    ow_search_with_command_raw script_drv ow OW_CMD_SEARCHROM rom_uninit
      (mk_world [0xE0] []) in
  session_ok ow' /\ (rom_id' = rom_uninit \/ rom_id' = rom ow').
Proof.
  intros ow.
  apply (search_keeps_session script_drv ow OW_CMD_SEARCHROM rom_uninit (mk_world [0xE0] [])).
  split; [by apply rom_ok_octets | by right].
Defined.

Lemma search_outcomes_witness :
  let '(res, ow', rom_id', w') :=
    ow_search_with_command_raw (fixed_drv (fun _ => true) true 0x00)
      (mk_ow rom_uninit OW_FIRST_DEV) OW_CMD_SEARCHROM rom_uninit (mk_world tt []) in
  res <> owERR /\
  (res = owOK -> rom_id' = rom ow') /\
  (res <> owOK -> res <> owERRNODEV ->
   rom_id' = rom_uninit /\ disrepancy ow' = disrepancy (mk_ow rom_uninit OW_FIRST_DEV)) /\
  (res = owERRPRESENCE \/ res = owERRBAUD -> ow' = mk_ow rom_uninit OW_FIRST_DEV) /\
  (disrepancy (mk_ow rom_uninit OW_FIRST_DEV) = 0 ->
   res = owERRNODEV /\ w' = mk_world tt [] /\
   ow' = mk_ow (rom (mk_ow rom_uninit OW_FIRST_DEV)) OW_FIRST_DEV /\ rom_id' = rom_uninit).
Proof.
  apply (search_outcomes (fixed_drv (fun _ => true) true 0x00)
           (mk_ow rom_uninit OW_FIRST_DEV) OW_CMD_SEARCHROM rom_uninit (mk_world tt [])).
Defined.

(** ** The enumeration depends on the slaves only *)

Lemma walk_fresh d (n : nat) : forall p A r r' nd,
  p < d -> walk d n p A r nd = walk d n p A r' nd.
Proof.
  induction n as [|n IH]; intros p A r r' nd Hp; [reflexivity|].
  rewrite !walk_S.
  assert (forall s b bc, choose p d s b bc nd = choose p d false b bc nd) as Hch.
  { intros s b bc. unfold choose.
    replace (p <? d) with true by (symmetry; apply Z.ltb_lt; lia). reflexivity. }
  rewrite (Hch (default false (head r))), (Hch (default false (head r'))).
  destruct (choose p d false _ _ nd) as [c nd1].
  by rewrite (IH (p - 1) (select c A) (tail r) (tail r') nd1) by lia.
Qed.

Lemma octet_bits_inj x y :
  0 <= x < 256 -> 0 <= y < 256 -> octet_bits x = octet_bits y -> x = y.
Proof.
  intros Hx Hy Heq. apply Z.bits_inj'. intros n Hn.
  destruct (Z.lt_ge_cases n 8) as [Hlt|Hge].
  - apply (f_equal (fun l => l !! Z.to_nat n)) in Heq.
    unfold octet_bits in Heq. rewrite !list_lookup_fmap in Heq.
    rewrite lookup_seq_lt in Heq by lia. simpl in Heq.
    rewrite Z2Nat.id in Heq by done. congruence.
  - by rewrite !octet_testbit_high.
Qed.

Lemma octets_bits_inj (r1 : list Z) : forall r2 : list Z,
  length r1 = length r2 -> octets_ok r1 -> octets_ok r2 ->
  octets_bits r1 = octets_bits r2 -> r1 = r2.
Proof.
  induction r1 as [|x r1 IH]; intros [|y r2] Hlen H1 H2 Heq; try done.
  unfold octets_bits in Heq. cbn [map concat] in Heq.
  apply app_inj_1 in Heq as [Hxy Hrest]; [|by rewrite !octet_bits_length].
  apply Forall_cons in H1 as [Hx H1]. apply Forall_cons in H2 as [Hy H2].
  f_equal; [by apply octet_bits_inj|]. apply IH; auto.
Qed.

Lemma rom_bits_inj (r1 r2 : list Z) :
  rom_ok r1 -> rom_ok r2 -> rom_bits r1 = rom_bits r2 -> r1 = r2.
Proof.
  intros [Hl1 Ho1] [Hl2 Ho2] Heq.
  rewrite !rom_bits_octets in Heq by done.
  apply octets_bits_inj; [congruence|done|done|exact Heq].
Qed.

(** Two calls on sessions that agree on the marker, and on the ROM buffer
    unless the marker is the one of a fresh search, find the same ROM and
    leave the same session, whatever state the slaves were left in. *)
Lemma search_bus_same dev devs (ow1 ow2 : ow_t) rid1 rid2
    regs1 ph1 baud1 t1 regs2 ph2 baud2 t2 :
  rom_ok (rom ow1) -> rom_ok (rom ow2) ->
  disrepancy ow2 = disrepancy ow1 -> disrepancy ow1 <> 0 ->
  rom ow2 = rom ow1 \/ 64 < disrepancy ow1 ->
  exists rom' nd' regs1' ph1' t1' regs2' ph2' t2',
    ow_search_raw bus_drv ow1 rid1 (mk_world (mk_bus (dev :: devs) regs1 ph1 baud1) t1) =
      (owOK, mk_ow rom' nd', rom',
       mk_world (mk_bus (dev :: devs) regs1' ph1' 115200) t1') /\
    ow_search_raw bus_drv ow2 rid2 (mk_world (mk_bus (dev :: devs) regs2 ph2 baud2) t2) =
      (owOK, mk_ow rom' nd', rom',
       mk_world (mk_bus (dev :: devs) regs2' ph2' 115200) t2') /\
    rom_ok rom'.
Proof.
  intros Hrom1 Hrom2 Hd Hnz Hsame.
  pose proof (search_pass_bus dev devs ow1 rid1 regs1 ph1 baud1 t1 Hrom1 Hnz) as H1.
  pose proof (search_pass_bus dev devs ow2 rid2 regs2 ph2 baud2 t2 Hrom2
                ltac:(by rewrite Hd)) as H2.
  rewrite Hd in H2.
  assert (walk (disrepancy ow1) 64 64 (map rom_bits (dev :: devs)) (rom_bits (rom ow2)) 0
          = walk (disrepancy ow1) 64 64 (map rom_bits (dev :: devs)) (rom_bits (rom ow1)) 0)
    as Hwalk.
  { destruct Hsame as [-> | Hlt]; [reflexivity|]. apply walk_fresh. lia. }
  rewrite Hwalk in H2.
  destruct (walk (disrepancy ow1) 64 64 _ (rom_bits (rom ow1)) 0) as [[cs A'] nd'].
  destruct H1 as (rom1 & regs1' & ph1' & t1' & Hrun1 & Hok1 & Hbits1).
  destruct H2 as (rom2 & regs2' & ph2' & t2' & Hrun2 & Hok2 & Hbits2).
  assert (rom2 = rom1) as -> by (apply rom_bits_inj; congruence).
  exists rom1, nd', regs1', ph1', t1', regs2', ph2', t2'.
  split; [exact Hrun1|]. split; [exact Hrun2 | exact Hok1].
Qed.

Lemma enumerate_bus_worlds dev devs (fuel : nat) :
  forall (ow : ow_t) rid1 rid2 regs1 ph1 baud1 t1 regs2 ph2 baud2 t2,
    rom_ok (rom ow) ->
    fst (enumerate bus_drv fuel ow rid1
           (mk_world (mk_bus (dev :: devs) regs1 ph1 baud1) t1)) =
    fst (enumerate bus_drv fuel ow rid2
           (mk_world (mk_bus (dev :: devs) regs2 ph2 baud2) t2)).
Proof.
  induction fuel as [|fuel IH];
    intros ow rid1 rid2 regs1 ph1 baud1 t1 regs2 ph2 baud2 t2 Hrom; [reflexivity|].
  rewrite !enumerate_S. unfold bind.
  destruct (Z.eq_dec (disrepancy ow) 0) as [Hz|Hnz].
  - unfold ow_search_raw, ow_search_with_command_raw. rewrite Hz. reflexivity.
  - destruct (search_bus_same dev devs ow ow rid1 rid2 regs1 ph1 baud1 t1
                regs2 ph2 baud2 t2 Hrom Hrom eq_refl Hnz ltac:(by left))
      as (rom' & nd' & regs1' & ph1' & t1' & regs2' & ph2' & t2' & H1 & H2 & Hrom').
    rewrite H1, H2. change (owr_eqb owOK owOK) with true. cbv beta iota.
    specialize (IH (mk_ow rom' nd') rom' rom' regs1' ph1' 115200 t1'
                  regs2' ph2' 115200 t2' Hrom').
    destruct (enumerate bus_drv fuel (mk_ow rom' nd') rom'
                (mk_world (mk_bus (dev :: devs) regs1' ph1' 115200) t1'))
      as [[[roms1 e1] o1] w1].
    destruct (enumerate bus_drv fuel (mk_ow rom' nd') rom'
                (mk_world (mk_bus (dev :: devs) regs2' ph2' 115200) t2'))
      as [[[roms2 e2] o2] w2].
    cbn [fst] in IH. injection IH as -> -> ->. reflexivity.
Qed.

(** From two sessions that are both armed for a first search. *)
Lemma enumerate_bus_fresh dev devs (fuel : nat) (ow1 ow2 : ow_t) rid1 rid2
    regs1 ph1 baud1 t1 regs2 ph2 baud2 t2 :
  rom_ok (rom ow1) -> rom_ok (rom ow2) ->
  disrepancy ow1 = OW_FIRST_DEV -> disrepancy ow2 = OW_FIRST_DEV ->
  fst (enumerate bus_drv (S fuel) ow1 rid1
         (mk_world (mk_bus (dev :: devs) regs1 ph1 baud1) t1)) =
  fst (enumerate bus_drv (S fuel) ow2 rid2
         (mk_world (mk_bus (dev :: devs) regs2 ph2 baud2) t2)).
Proof.
  intros Hrom1 Hrom2 Hd1 Hd2.
  destruct (search_bus_same dev devs ow1 ow2 rid1 rid2 regs1 ph1 baud1 t1
              regs2 ph2 baud2 t2 Hrom1 Hrom2 ltac:(congruence)
              ltac:(rewrite Hd1; done) ltac:(right; rewrite Hd1; done))
    as (rom' & nd' & regs1' & ph1' & t1' & regs2' & ph2' & t2' & H1 & H2 & Hrom').
  rewrite !enumerate_S. unfold bind. rewrite H1, H2.
  change (owr_eqb owOK owOK) with true. cbv beta iota.
  pose proof (enumerate_bus_worlds dev devs fuel (mk_ow rom' nd') rom' rom'
                regs1' ph1' 115200 t1' regs2' ph2' 115200 t2' Hrom') as Hrest.
  destruct (enumerate bus_drv fuel (mk_ow rom' nd') rom'
              (mk_world (mk_bus (dev :: devs) regs1' ph1' 115200) t1'))
    as [[[roms1 e1] o1] w1].
  destruct (enumerate bus_drv fuel (mk_ow rom' nd') rom'
              (mk_world (mk_bus (dev :: devs) regs2' ph2' 115200) t2'))
    as [[[roms2 e2] o2] w2].
  cbn [fst] in Hrest. injection Hrest as -> -> ->. reflexivity.
Qed.

(** The session and the bus at the end of a run of searches. *)
Lemma enumerate_bus_final dev devs (fuel : nat) : forall (ow : ow_t) rid regs ph baud t,
  rom_ok (rom ow) ->
  exists roms e ow' regs' ph' baud' t',
    enumerate bus_drv fuel ow rid (mk_world (mk_bus (dev :: devs) regs ph baud) t) =
      (roms, e, ow', mk_world (mk_bus (dev :: devs) regs' ph' baud') t') /\
    rom_ok (rom ow') /\
    (e = Some owERRNODEV -> disrepancy ow' = OW_FIRST_DEV).
Proof.
  induction fuel as [|fuel IH]; intros ow rid regs ph baud t Hrom.
  - exists [], None, ow, regs, ph, baud, t. split; [reflexivity|]. split; done.
  - rewrite enumerate_S. unfold bind.
    destruct (Z.eq_dec (disrepancy ow) 0) as [Hz|Hnz].
    + exists [], (Some owERRNODEV), (mk_ow (rom ow) OW_FIRST_DEV), regs, ph, baud, t.
      split; [|split; done].
      unfold ow_search_raw, ow_search_with_command_raw. rewrite Hz. reflexivity.
    + destruct (search_bus_same dev devs ow ow rid rid regs ph baud t
                  regs ph baud t Hrom Hrom eq_refl Hnz ltac:(by left))
        as (rom' & nd' & regs1' & ph1' & t1' & _ & _ & _ & H1 & _ & Hrom').
      rewrite H1. change (owr_eqb owOK owOK) with true. cbv beta iota.
      destruct (IH (mk_ow rom' nd') rom' regs1' ph1' 115200 t1' Hrom')
        as (roms & e & ow' & regs' & ph' & baud' & t' & Hrun & Hok & He).
      rewrite Hrun. exists (rom' :: roms), e, ow', regs', ph', baud', t'.
      split; [reflexivity|]. split; done.
Qed.

(** X7. Against a bus with at least one slave, what a search reset followed
    by successive searches returns (the ROMs, the result that ends the run
    and the session left behind) depends on the slaves alone: not on what
    the ROM buffer of the session held before, not on the content of the
    caller's [rom_id], and not on the state an earlier, possibly unfinished,
    search left the slaves in. *)
Theorem enumeration_fresh dev devs (fuel : nat) (ow1 ow2 : ow_t) rid1 rid2
    regs1 ph1 baud1 t1 regs2 ph2 baud2 t2 :
  rom_ok (rom ow1) -> rom_ok (rom ow2) ->
  fst (enumerate bus_drv (S fuel) (snd (ow_search_reset_raw ow1)) rid1
         (mk_world (mk_bus (dev :: devs) regs1 ph1 baud1) t1)) =
  fst (enumerate bus_drv (S fuel) (snd (ow_search_reset_raw ow2)) rid2
         (mk_world (mk_bus (dev :: devs) regs2 ph2 baud2) t2)).
Proof.
  intros Hrom1 Hrom2. by apply enumerate_bus_fresh.
Qed.

(** X8. Against a bus with at least one slave, once a run of searches has
    ended with [owERRNODEV] the session is armed again: going on calling
    [ow_search_raw], without a search reset, returns the same ROMs in the
    same order, ends with [owERRNODEV] again and leaves the same session. *)
Theorem enumeration_restarts dev devs (fuel : nat) (ow ow' : ow_t) rid rid'
    regs ph baud t (roms : list ow_rom_t) (w' : world bus) :
  rom_ok (rom ow) ->
  enumerate bus_drv fuel (snd (ow_search_reset_raw ow)) rid
    (mk_world (mk_bus (dev :: devs) regs ph baud) t) = (roms, Some owERRNODEV, ow', w') ->
  fst (enumerate bus_drv fuel ow' rid' w') = (roms, Some owERRNODEV, ow').
Proof.
  intros Hrom Hrun.
  destruct (enumerate_bus_final dev devs fuel (snd (ow_search_reset_raw ow)) rid
              regs ph baud t Hrom)
    as (roms1 & e1 & ow1 & regs' & ph' & baud' & t' & Hrun1 & Hok & He).
  rewrite Hrun in Hrun1. injection Hrun1 as <- <- <- ->.
  destruct fuel as [|fuel]; [discriminate|].
  rewrite (enumerate_bus_fresh dev devs fuel ow' (snd (ow_search_reset_raw ow)) rid' rid
             regs' ph' baud' t' regs ph baud t Hok Hrom (He eq_refl) eq_refl).
  by rewrite Hrun.
Qed.

Lemma enumeration_fresh_witness :
  let dev := [0x28; 0xFF; 0x64; 0x1E; 0x3C; 0x2D; 0x5B; 0x9E] in
  let dev' := [0x10; 0x01; 0; 0; 0; 0; 0; 0] in
  fst (enumerate bus_drv 3 (snd (ow_search_reset_raw (mk_ow rom_uninit OW_LAST_DEV))) rom_uninit
         (mk_world (mk_bus (dev :: [dev']) [] BusIdle 115200) [])) =
  fst (enumerate bus_drv 3 (snd (ow_search_reset_raw (mk_ow dev' 17))) dev
         (mk_world (mk_bus (dev :: [dev']) [rom_bits dev'] (BusSearch SlotCpl) 9600) [])).
Proof.
  intros dev dev'.
  apply (enumeration_fresh dev [dev'] 2 (mk_ow rom_uninit OW_LAST_DEV) (mk_ow dev' 17));
    by apply rom_ok_octets.
Defined.

Lemma enumeration_restarts_witness :
  let dev := [0x10; 0x00; 0; 0; 0; 0; 0; 0] in
  let dev' := [0x10; 0x01; 0; 0; 0; 0; 0; 0] in
  let w := mk_world (mk_bus (dev :: [dev']) [] BusIdle 115200) [] in
  let run := enumerate bus_drv 3 (snd (ow_search_reset_raw (mk_ow rom_uninit OW_LAST_DEV)))
               rom_uninit w in
  fst (enumerate bus_drv 3 (mk_ow dev OW_FIRST_DEV) rom_uninit (snd run))
  = ([dev'; dev], Some owERRNODEV, mk_ow dev OW_FIRST_DEV).
Proof.
  intros dev dev' w run.
  apply (enumeration_restarts dev [dev'] 3 (mk_ow rom_uninit OW_LAST_DEV)
           (mk_ow dev OW_FIRST_DEV) rom_uninit rom_uninit [] BusIdle 115200 []
           [dev'; dev] (snd run)).
  - by apply rom_ok_octets.
  - vm_compute. reflexivity.
Defined.

(** ** The array helper is a run of searches *)

Section DevicesFacts.

Context {D : Type} (drv : ow_ll_drv_t D).

(** The content of the caller's [rom_id] has no part in a search: it is
    either left alone or overwritten with the session's buffer. *)
Lemma search_rom_id_free (ow : ow_t) (cmd : Z) (rid1 rid2 : ow_rom_t) (w : world D) :
  exists res ow' (copied : option ow_rom_t) w',
    ow_search_with_command_raw drv ow cmd rid1 w = (res, ow', default rid1 copied, w') /\
    ow_search_with_command_raw drv ow cmd rid2 w = (res, ow', default rid2 copied, w') /\
    (res = owOK -> copied = Some (rom ow')).
Proof.
  unfold ow_search_with_command_raw.
  destruct (disrepancy ow =? 0).
  - exists owERRNODEV, (mk_ow (rom ow) OW_FIRST_DEV), None, w. by repeat split.
  - unfold bind. destruct (ow_reset_raw drv w) as [res w1].
    destruct (owr_eqb res owOK) eqn:Hres; cbn [negb].
    + destruct (ow_write_byte_ex_raw drv cmd None w1) as [x w2].
      destruct (search_octets drv 8 (disrepancy ow) _ w2) as [[st|st|st] w3]; unfold ret.
      * by eexists _, _, (Some (st_rom st)), _.
      * by eexists _, _, (Some (st_rom st)), _.
      * by eexists _, _, None, _.
    + exists res, ow, None, w1. split; [done|]. split; [done|].
      intros ->. discriminate.
Qed.

Lemma enumerate_length (n : nat) : forall (ow : ow_t) rid (w : world D),
  let '(roms, e, _, _) := enumerate drv n ow rid w in
  (length roms <= n)%nat /\ (e = None -> length roms = n).
Proof.
  induction n as [|n IH]; intros ow rid w; [by split|].
  rewrite enumerate_S. unfold bind.
  destruct (ow_search_raw drv ow rid w) as [[[res ow1] r1] w1].
  destruct (owr_eqb res owOK); unfold ret; [|split; [simpl; lia | done]].
  specialize (IH ow1 r1 w1).
  destruct (enumerate drv n ow1 r1 w1) as [[[roms e] owf] wf].
  destruct IH as [Hle Hn]. split; [simpl; lia|]. intros He. simpl. by rewrite Hn.
Qed.

Lemma devices_loop_S (n : nat) (cmd : Z) (res : owr_t) (ow : ow_t)
    (rom_id_arr : list ow_rom_t) (cnt : nat) :
  devices_loop drv (S n) cmd res ow rom_id_arr cnt =
    let* (res, ow, r) := ow_search_with_command_raw drv ow cmd (rom_id_arr !!! cnt) in
    let rom_id_arr := <[cnt := r]> rom_id_arr in
    if negb (owr_eqb res owOK) then ret (res, ow, rom_id_arr, cnt)
    else devices_loop drv n cmd res ow rom_id_arr (S cnt).
Proof. reflexivity. Qed.

(** The loop of the array helper against the run of searches: the same
    calls, with the ROMs stored into successive slots from [cnt] on. *)
Lemma devices_loop_enumerate (n : nat) :
  forall (res0 : owr_t) (ow : ow_t) (arr : list ow_rom_t) (cnt : nat) rid (w : world D)
         roms e owf wf,
    (cnt + n <= length arr)%nat ->
    enumerate drv n ow rid w = (roms, e, owf, wf) ->
    exists arr',
      devices_loop drv n OW_CMD_SEARCHROM res0 ow arr cnt w =
        (default (match n with O => res0 | S _ => owOK end) e, owf, arr',
         (cnt + length roms)%nat, wf) /\
      length arr' = length arr /\
      take cnt arr' = take cnt arr /\
      take (length roms) (drop cnt arr') = roms /\
      drop (S (cnt + length roms)) arr' = drop (S (cnt + length roms)) arr.
Proof.
  induction n as [|n IH]; intros res0 ow arr cnt rid w roms e owf wf Hlen Hrun.
  - injection Hrun as <- <- <- <-. exists arr. simpl.
    rewrite Nat.add_0_r. by repeat split.
  - rewrite enumerate_S in Hrun. unfold bind in Hrun. rewrite devices_loop_S. unfold bind.
    unfold ow_search_raw in Hrun.
    destruct (search_rom_id_free ow OW_CMD_SEARCHROM rid (arr !!! cnt) w)
      as (res & ow1 & copied & w1 & H1 & H2 & Hcopy).
    rewrite H1 in Hrun. rewrite H2. clear H1 H2.
    destruct (owr_eqb res owOK) eqn:Hres; cbn [negb].
    + assert (res = owOK) as -> by (by destruct res).
      rewrite (Hcopy eq_refl) in *. cbn [default from_option id] in *.
      destruct (enumerate drv n ow1 (rom ow1) w1) as [[[roms1 e1] owf1] wf1] eqn:Hrest.
      injection Hrun as <- <- <- <-.
      destruct (IH owOK ow1 (<[cnt := rom ow1]> arr) (S cnt) (rom ow1) w1 roms1 e1 owf1 wf1)
        as (arr' & Hloop & Hl & Htake & Hroms & Hdrop);
        [rewrite length_insert; lia | done |].
      rewrite length_insert in Hl.
      assert (default owOK e1 = default (match n with O => owOK | S _ => owOK end) e1) as ->
        by (by destruct n).
      exists arr'. cbn [length].
      replace (cnt + S (length roms1))%nat with (S cnt + length roms1)%nat by lia.
      split; [exact Hloop|]. split; [done|].
      assert (arr' !! cnt = Some (rom ow1)) as Hslot.
      { apply (f_equal (fun l => l !! cnt)) in Htake.
        rewrite !lookup_take_lt in Htake by lia.
        rewrite Htake. apply list_lookup_insert_eq. lia. }
      split; [|split].
      * apply (f_equal (take cnt)) in Htake. rewrite !take_take in Htake.
        replace (cnt `min` S cnt)%nat with cnt in Htake by lia.
        by rewrite Htake, take_insert_ge.
      * rewrite (drop_S _ _ _ Hslot). cbn [take]. by rewrite Hroms.
      * rewrite Hdrop. apply drop_insert_lt. lia.
    + injection Hrun as <- <- <- <-.
      exists (<[cnt := default (arr !!! cnt) copied]> arr). cbn [length default].
      rewrite Nat.add_0_r. split; [reflexivity|].
      split; [apply length_insert|]. split; [by apply take_insert_ge|].
      split; [done|]. apply drop_insert_lt. lia.
Qed.

(** X9. Over any transport, [ow_search_devices_raw] on an array with room
    for [rom_len] ROMs, [rom_len] positive, is a search reset followed by
    successive [ow_search_raw] calls, at most [rom_len] of them and until
    one does not return [owOK]: it leaves the session and the transport as they do, the
    ROMs they return sit in the first slots of the array in the order
    found, [roms_found] is their number, which is at most [rom_len], and the
    slots past the one after the last ROM are untouched.  Its result is
    [owOK] when all [rom_len] searches returned [owOK], and otherwise the
    result that ended the run, with [owERRNODEV] turned into [owOK] when at
    least one ROM was found. *)
Theorem search_devices_as_searches (ow owf : ow_t) (arr : list ow_rom_t) (rom_len : nat)
    (roms_found : option nat) rid (w wf : world D) (roms : list ow_rom_t)
    (e : option owr_t) :
  (0 < rom_len <= length arr)%nat ->
  enumerate drv rom_len (snd (ow_search_reset_raw ow)) rid w = (roms, e, owf, wf) ->
  exists arr',
    ow_search_devices_raw drv ow arr rom_len roms_found w =
      (match e with
       | None => owOK
       | Some r => if owr_eqb r owERRNODEV && (0 <? length roms)%nat then owOK else r
       end,
       owf, arr',
       match roms_found with Some _ => Some (length roms) | None => None end,
       wf) /\
    (length roms <= rom_len)%nat /\
    length arr' = length arr /\
    take (length roms) arr' = roms /\
    drop (S (length roms)) arr' = drop (S (length roms)) arr.
Proof.
  intros [Hpos Hlen] Hrun.
  pose proof (enumerate_length rom_len (snd (ow_search_reset_raw ow)) rid w) as Hn.
  rewrite Hrun in Hn. destruct Hn as [Hle Hnone].
  destruct (devices_loop_enumerate rom_len owOK (snd (ow_search_reset_raw ow)) arr 0 rid w
              roms e owf wf Hlen Hrun) as (arr' & Hloop & Hl & _ & Hroms & Hdrop).
  rewrite drop_0 in Hroms. cbn [Nat.add] in Hloop, Hdrop.
  exists arr'. split; [|by repeat split].
  unfold ow_search_devices_raw, ow_search_devices_with_command_raw.
  cbn [ow_search_reset_raw snd] in *. unfold bind. rewrite Hloop. unfold ret.
  destruct e as [r|]; cbn [default].
  - reflexivity.
  - rewrite (Hnone eq_refl). by destruct rom_len.
Qed.

End DevicesFacts.

Lemma search_devices_as_searches_witness :
  let r0 := [0x00; 0; 0; 0; 0; 0; 0; 0] in
  let r1 := [0x01; 0; 0; 0; 0; 0; 0; 0] in
  let r3 := [0x03; 0; 0; 0; 0; 0; 0; 0] in
  let ow := mk_ow rom_uninit OW_LAST_DEV in
  let arr := [rom_uninit; rom_uninit; rom_uninit; rom_uninit; rom_uninit] in
  let run := enumerate bus_drv 4 (snd (ow_search_reset_raw ow)) rom_uninit (bus_of [r0; r1; r3]) in
  exists arr',
    ow_search_devices_raw bus_drv ow arr 4 (Some 0%nat) (bus_of [r0; r1; r3]) =
      (owOK, mk_ow r0 OW_FIRST_DEV, arr', Some 3%nat, snd run) /\
    (3 <= 4)%nat /\
    length arr' = 5%nat /\
    take 3 arr' = [r3; r1; r0] /\
    drop 4 arr' = [rom_uninit].
Proof.
  intros r0 r1 r3 ow arr run.
  apply (search_devices_as_searches bus_drv ow (mk_ow r0 OW_FIRST_DEV) arr 4 (Some 0%nat)
           rom_uninit (bus_of [r0; r1; r3]) (snd run) [r3; r1; r0] (Some owERRNODEV)).
  - simpl. lia.
  - vm_compute. reflexivity.
Defined.

(** ** What the visitor of the callback helper gets to see *)

Section CallbackFacts.

Context {D U : Type} (drv : ow_ll_drv_t D).
Variable func : ow_t -> option ow_rom_t -> nat -> U -> M D (owr_t * U).


Lemma visits_snoc (roms : list ow_rom_t) : forall (i : nat) (r : ow_rom_t),
  visits i (roms ++ [r]) = visits i roms ++ [((i + length roms)%nat, Some r)].
Proof.
  induction roms as [|x roms IH]; intros i r.
  - simpl. by rewrite Nat.add_0_r.
  - simpl. rewrite IH. do 4 f_equal. lia.
Qed.



End CallbackFacts.


(** ** The CRC tells single octets apart *)

(** The register after an octet depends on the register before and on the
    octet only through their exclusive or: checked for each of the 65536
    pairs, together with the range of the exclusive or. *)
Lemma crc_octet_lxor c x :
  0 <= c < 256 -> 0 <= x < 256 ->
  crc_octet c x = crc_octet 0 (Z.lxor c x) /\ 0 <= Z.lxor c x < 256.
Proof.
  intros Hc Hx.
  assert (forallb (fun c => forallb (fun x =>
            (crc_octet c x =? crc_octet 0 (Z.lxor c x))
            && (0 <=? Z.lxor c x) && (Z.lxor c x <? 256)) (seqZ 0 256)) (seqZ 0 256) = true)
    as Hall by (vm_compute; reflexivity).
  rewrite forallb_forall in Hall.
  specialize (Hall c ltac:(apply list_elem_of_In, elem_of_seqZ; lia)).
  rewrite forallb_forall in Hall.
  specialize (Hall x ltac:(apply list_elem_of_In, elem_of_seqZ; lia)).
  apply andb_true_iff in Hall as [Hall H3]. apply andb_true_iff in Hall as [H1 H2].
  apply Z.eqb_eq in H1. apply Z.leb_le in H2. apply Z.ltb_lt in H3. lia.
Qed.

(** From the cleared register, different octets give different registers:
    checked for each of the 65536 pairs. *)
Lemma crc_table_inj x y :
  0 <= x < 256 -> 0 <= y < 256 -> crc_octet 0 x = crc_octet 0 y -> x = y.
Proof.
  intros Hx Hy Heq.
  assert (forallb (fun x => forallb (fun y =>
            implb (crc_octet 0 x =? crc_octet 0 y) (x =? y)) (seqZ 0 256)) (seqZ 0 256) = true)
    as Hall by (vm_compute; reflexivity).
  rewrite forallb_forall in Hall.
  specialize (Hall x ltac:(apply list_elem_of_In, elem_of_seqZ; lia)).
  rewrite forallb_forall in Hall.
  specialize (Hall y ltac:(apply list_elem_of_In, elem_of_seqZ; lia)).
  rewrite Heq, Z.eqb_refl in Hall. by apply Z.eqb_eq.
Qed.

Lemma lxor_cancel_l c x y : Z.lxor c x = Z.lxor c y -> x = y.
Proof.
  intros H. apply (f_equal (Z.lxor c)) in H.
  by rewrite <- !Z.lxor_assoc, Z.lxor_nilpotent, !Z.lxor_0_l in H.
Qed.

Lemma lxor_cancel_r c c' x : Z.lxor c x = Z.lxor c' x -> c = c'.
Proof. rewrite !(Z.lxor_comm _ x). apply lxor_cancel_l. Qed.

Lemma crc_octet_inj_octet c x y :
  0 <= c < 256 -> 0 <= x < 256 -> 0 <= y < 256 ->
  crc_octet c x = crc_octet c y -> x = y.
Proof.
  intros Hc Hx Hy Heq.
  destruct (crc_octet_lxor c x Hc Hx) as [Ex Rx].
  destruct (crc_octet_lxor c y Hc Hy) as [Ey Ry].
  rewrite Ex, Ey in Heq. apply (lxor_cancel_l c). by apply crc_table_inj.
Qed.

Lemma crc_octet_inj_crc c c' x :
  0 <= c < 256 -> 0 <= c' < 256 -> 0 <= x < 256 ->
  crc_octet c x = crc_octet c' x -> c = c'.
Proof.
  intros Hc Hc' Hx Heq.
  destruct (crc_octet_lxor c x Hc Hx) as [Ex Rx].
  destruct (crc_octet_lxor c' x Hc' Hx) as [Ey Ry].
  rewrite Ex, Ey in Heq. apply (lxor_cancel_r c c' x). by apply crc_table_inj.
Qed.

Lemma fold_left_cons_eq {A B : Type} (f : A -> B -> A) (x : B) (l : list B) (a : A) :
  fold_left f (x :: l) a = fold_left f l (f a x).
Proof. reflexivity. Qed.

Lemma fold_left_inj_on {A B : Type} (f : A -> B -> A) (P : A -> Prop) (Q : B -> Prop)
    (l : list B) :
  (forall a b, P a -> P (f a b)) ->
  (forall a a' b, P a -> P a' -> Q b -> f a b = f a' b -> a = a') ->
  Forall Q l ->
  forall a a', P a -> P a' -> fold_left f l a = fold_left f l a' -> a = a'.
Proof.
  intros Hf Hinj. induction l as [|x l IH]; intros Hl a a' Ha Ha' Heq; [exact Heq|].
  apply Forall_cons in Hl as [Hx Hl].
  apply (Hinj a a' x Ha Ha' Hx).
  exact (IH Hl (f a x) (f a' x) (Hf a x Ha) (Hf a' x Ha') Heq).
Qed.

Lemma crc_fold_inj (post : list Z) : forall c c',
  octets_ok post -> 0 <= c < 256 -> 0 <= c' < 256 ->
  fold_left crc_octet post c = fold_left crc_octet post c' -> c = c'.
Proof.
  intros c c' Hoct.
  apply (fold_left_inj_on crc_octet (fun c => 0 <= c < 256) (fun x => 0 <= x < 256) post).
  - intros a b. apply crc_octet_range.
  - intros a a' b. apply crc_octet_inj_crc.
  - exact Hoct.
Qed.

(** X11. The CRC of [ow_crc] tells apart two octet strings that differ in
    one octet: whatever stands before the octet, and for any octets after
    it, changing the one octet changes the CRC.  So a ROM or a scratchpad
    that passes the check has no single corrupted octet. *)
Theorem crc_detects_octet_error (pre post : list Z) (x y : Z) :
  0 <= x < 256 -> 0 <= y < 256 -> octets_ok post -> x <> y ->
  ow_crc (Some (pre ++ x :: post)) (length (pre ++ x :: post)) <>
  ow_crc (Some (pre ++ y :: post)) (length (pre ++ y :: post)).
Proof.
  intros Hx Hy Hpost Hxy.
  rewrite !ow_crc_fold, !fold_left_app, !fold_left_cons_eq.
  pose proof (crc_fold_range pre 0 ltac:(lia)) as Hc.
  intros Heq. apply Hxy.
  apply (crc_octet_inj_octet (fold_left crc_octet pre 0) x y Hc Hx Hy).
  apply (crc_fold_inj post _ _ Hpost); [by apply crc_octet_range..|exact Heq].
Qed.

Lemma crc_detects_octet_error_witness :
  ow_crc (Some ([0x28; 0xFF; 0x64] ++ 0x1E :: [0x3C; 0x2D; 0x5B; 0x9E])) 8 <>
  ow_crc (Some ([0x28; 0xFF; 0x64] ++ 0x1F :: [0x3C; 0x2D; 0x5B; 0x9E])) 8.
Proof.
  apply (crc_detects_octet_error [0x28; 0xFF; 0x64] [0x3C; 0x2D; 0x5B; 0x9E] 0x1E 0x1F);
    [lia | lia | | lia].
  unfold octets_ok. repeat constructor; lia.
Defined.

(** ** A reset that fails *)

(** X12. A reset that returns [owERRTXRX] has made two calls only, the
    change to 9600 baud and the exchange: the baudrate is not restored, and
    the transport is left at the reset rate.  [owERRPRESENCE] is returned
    only after the baudrate has been set back to 115200.  A reset never
    returns [owERR] or [owERRNODEV]. *)
Theorem reset_error_calls {D : Type} (drv : ow_ll_drv_t D) (w : world D) :
  let '(res, w') := ow_reset_raw drv w in
  (res = owERRTXRX ->
   ll_trace w' = ll_trace w ++ [CallSetBaudrate 9600; CallTxRx [0xF0]]) /\
  (res = owERRPRESENCE ->
   ll_trace w' =
     ll_trace w ++ [CallSetBaudrate 9600; CallTxRx [0xF0]; CallSetBaudrate 115200]) /\
  res <> owERR /\ res <> owERRNODEV.
Proof.
  unfold ow_reset_raw. run_calls.
  destruct (ll_set_baudrate drv 9600 (ll_state w)) as [ok1 d1]. simpl.
  destruct ok1; simpl; [|by repeat split].
  destruct (ll_tx_rx drv [OW_RESET_BYTE] d1) as [[ok2 rx] d2]. simpl.
  destruct ok2; simpl; [|split; [by rewrite <- app_assoc | by repeat split]].
  destruct (ll_set_baudrate drv 115200 d2) as [ok3 d3]. simpl.
  destruct ok3; simpl; [|by repeat split].
  destruct ((rx !!! 0%nat =? 0) || (rx !!! 0%nat =? OW_RESET_BYTE)); simpl.
  - split; [done|]. split; [by rewrite <- !app_assoc | by split].
  - by repeat split.
Qed.

Lemma reset_error_calls_witness :
  (let '(res, w') :=
     ow_reset_raw (fixed_drv (fun _ => true) false 0x00) (mk_world tt []) in
   (res = owERRTXRX ->
    ll_trace w' = [] ++ [CallSetBaudrate 9600; CallTxRx [0xF0]]) /\
   (res = owERRPRESENCE ->
    ll_trace w' = [] ++ [CallSetBaudrate 9600; CallTxRx [0xF0]; CallSetBaudrate 115200]) /\
   res <> owERR /\ res <> owERRNODEV) /\
  fst (ow_reset_raw (fixed_drv (fun _ => true) false 0x00) (mk_world tt [])) = owERRTXRX.
Proof.
  split; [|reflexivity].
  apply (reset_error_calls (fixed_drv (fun _ => true) false 0x00) (mk_world tt [])).
Defined.

(** ** The callback helper is a run of searches *)

Section CallbackRun.

Context {D U : Type} (drv : ow_ll_drv_t D).
Variable func : ow_t -> option ow_rom_t -> nat -> U -> M D (owr_t * U).

(** The visitor accepts every call and leaves the transport alone. *)
Hypothesis func_accepts :
  forall ow r i u w, exists u', func ow r i u w = (owOK, u', w).



End CallbackRun.


(** ** A command that does not get through *)

Section DeafCommand.

Context {D : Type} (drv : ow_ll_drv_t D).

Lemma send_bit_deaf (btw : Z) (btr : option Z) (w : world D) :
  send_bit (deaf_drv drv) btw btr w = send_bit drv btw btr w.
Proof.
  unfold send_bit, bind, call_tx_rx. cbn [ll_tx_rx deaf_drv]. unfold deaf_tx_rx.
  destruct (ll_tx_rx drv _ (ll_state w)) as [[ok rx] d']. cbn [length Nat.eqb negb].
  by rewrite andb_true_r.
Qed.

Lemma reset_deaf (w : world D) : ow_reset_raw (deaf_drv drv) w = ow_reset_raw drv w.
Proof.
  unfold ow_reset_raw, bind, call_set_baudrate, call_tx_rx.
  cbn [ll_tx_rx ll_set_baudrate deaf_drv]. unfold deaf_tx_rx.
  destruct (ll_set_baudrate drv 9600 (ll_state w)) as [ok1 d1].
  destruct ok1; [|reflexivity]. cbn [negb ll_state ll_trace].
  destruct (ll_tx_rx drv [OW_RESET_BYTE] d1) as [[ok2 rx] d2].
  cbn [length Nat.eqb negb]. by rewrite andb_true_r.
Qed.

Lemma write_byte_deaf (btw : Z) (br : option Z) (w : world D) :
  snd (ow_write_byte_ex_raw (deaf_drv drv) btw br w) = snd (ow_write_byte_ex_raw drv btw br w) /\
  fst (fst (ow_write_byte_ex_raw (deaf_drv drv) btw br w)) = owERRTXRX.
Proof.
  unfold ow_write_byte_ex_raw, bind, call_tx_rx. cbn [ll_tx_rx deaf_drv].
  unfold deaf_tx_rx.
  destruct (ll_tx_rx drv (tr_prepare btw) (ll_state w)) as [[ok rx] d'].
  change (length (tr_prepare btw) =? 8)%nat with true. cbn [negb].
  rewrite andb_false_r. cbn [negb]. unfold ret.
  by destruct ok, br.
Qed.

Lemma search_bit_deaf (d : Z) (st : search_st) (w : world D) :
  search_bit (deaf_drv drv) d st w = search_bit drv d st w.
Proof.
  unfold search_bit, bind. rewrite send_bit_deaf.
  destruct (send_bit drv 1 (Some 0) w) as [[r1 b] w1].
  destruct (negb (owr_eqb r1 owOK)); [reflexivity|]. rewrite send_bit_deaf.
  destruct (send_bit drv 1 (Some 0) w1) as [[r2 b_cpl] w2].
  destruct (negb (owr_eqb r2 owOK)); [reflexivity|].
  destruct (truthy (default 0 b) && truthy (default 0 b_cpl)); [reflexivity|].
  destruct (choose_bit _ _ _ _ _ _) as [c nd]. by rewrite send_bit_deaf.
Qed.

Lemma search_bits_deaf (j : nat) (d : Z) : forall (st : search_st) (w : world D),
  search_bits (deaf_drv drv) j d st w = search_bits drv j d st w.
Proof.
  induction j as [|j IH]; intros st w; [reflexivity|].
  rewrite !search_bits_S. unfold bind. rewrite search_bit_deaf.
  destruct (search_bit drv d st w) as [[st1|st1|st1] w1]; [apply IH | done | done].
Qed.

Lemma search_octets_deaf (n : nat) (d : Z) : forall (st : search_st) (w : world D),
  search_octets (deaf_drv drv) n d st w = search_octets drv n d st w.
Proof.
  induction n as [|n IH]; intros st w; [reflexivity|].
  rewrite !search_octets_S. destruct (id_bit_number st >? 0); [|reflexivity].
  unfold bind. rewrite search_bits_deaf.
  destruct (search_bits drv 8 d st w) as [[st1|st1|st1] w1]; [apply IH | done | done].
Qed.

(** X14. The search does not look at the result of the exchange that sends
    its command.  Over a transport that reports every eight-octet exchange
    as failed, so that the command exchange itself returns [owERRTXRX], a
    search runs the same pass, returns the same result and ROM, and leaves
    the same session and transport state as over the transport that reports
    those exchanges truthfully: a command that did not get through is never
    reported. *)
Theorem search_ignores_command_result (ow : ow_t) (cmd : Z) (rom_id : ow_rom_t)
    (w : world D) :
  ow_search_with_command_raw (deaf_drv drv) ow cmd rom_id w =
    ow_search_with_command_raw drv ow cmd rom_id w /\
  forall w1, fst (fst (ow_write_byte_ex_raw (deaf_drv drv) cmd None w1)) = owERRTXRX.
Proof.
  split; [|intros w1; apply write_byte_deaf].
  unfold ow_search_with_command_raw.
  destruct (disrepancy ow =? 0); [reflexivity|].
  unfold bind. rewrite reset_deaf.
  destruct (ow_reset_raw drv w) as [res w1].
  destruct (negb (owr_eqb res owOK)); [reflexivity|].
  pose proof (proj1 (write_byte_deaf cmd None w1)) as Hw.
  destruct (ow_write_byte_ex_raw (deaf_drv drv) cmd None w1) as [x1 w2].
  destruct (ow_write_byte_ex_raw drv cmd None w1) as [x2 w2'].
  cbn [snd] in Hw. subst w2'. by rewrite search_octets_deaf.
Qed.

End DeafCommand.
